(** * helm-depcheck: the dependency compatibility checker

    A shallow embedding of [pkg/types], [pkg/parser], [pkg/helm] and
    [pkg/checker], and the properties of the check report proved over it.

    Go strings are byte strings: [string] (a list of 8-bit [ascii]).
    Go [int] is a 64-bit signed integer: [Z] with the wrap-around of [++]
    written out in [incr].  A Go [map] is a [gmap]; its [range] order is not
    fixed by the language and is an explicit argument ([RangeOrder]).
    The cluster (Kubernetes and Helm) is a [World] whose answers may depend
    on the queries made so far; every query is recorded in a [Trace]. *)

From Stdlib Require Import ZArith Lia DecimalString.
From stdpp Require Import base strings list gmap sorting.

(** ** Go standard library: strings *)

(** [strings.Contains]: byte-wise substring test. *)
Fixpoint strings_Contains (s substr : string) : bool :=
  String.prefix substr s ||
  match s with
  | EmptyString => false
  | String _ s' => strings_Contains s' substr
  end.

(** [strings.Join]. *)
Fixpoint strings_Join (elems : list string) (sep : string) : string :=
  match elems with
  | [] => ""
  | [e] => e
  | e :: rest => e +:+ sep +:+ strings_Join rest sep
  end.

(** Go [int]: 64-bit two's complement. *)
Definition wrap64 (z : Z) : Z := ((z + 2 ^ 63) mod 2 ^ 64 - 2 ^ 63)%Z.

(** [x++] on an [int]. *)
Definition incr (x : Z) : Z := wrap64 (x + 1).

(** ** pkg/types *)

Record Dependency := {
  dep_Name : string;
  dep_Version : string;
}.

Record DependenciesFile := {
  Dependencies_of : list Dependency;
}.

Record ChartInfo := {
  chart_Name : string;
  chart_Version : string;
}.

(** [Updated] is a [time.Time]; it is only carried around, here as the
    instant in nanoseconds. *)
Record Release := {
  rel_Name : string;
  rel_Namespace : string;
  rel_Chart : ChartInfo;
  rel_Status : string;
  rel_Version : Z;
  rel_Updated : Z;
}.

Record DependencyResult := {
  dr_Name : string;
  dr_RequiredVersion : string;
  dr_Status : string;
  dr_FoundReleases : list Release;
  dr_Error : string;
}.

Record ResultSummary := {
  s_Total : Z;
  s_Satisfied : Z;
  s_NotFound : Z;
  s_Mismatched : Z;
  s_Multiple : Z;
  s_Errors : Z;
}.

(** [ErrorType] is a Go string type. *)
Definition ErrorType := string.

Definition ErrorTypeDependencyNotFound : ErrorType := "dependency_not_found".
Definition ErrorTypeVersionMismatch : ErrorType := "version_mismatch".
Definition ErrorTypeMultipleDeployments : ErrorType := "multiple_deployments".
Definition ErrorTypeDuplicateInNamespace : ErrorType := "duplicate_in_namespace".
Definition ErrorTypeInvalidDependencyFile : ErrorType := "invalid_dependency_file".
Definition ErrorTypeHelmClientError : ErrorType := "helm_client_error".
Definition ErrorTypeInvalidVersionConstraint : ErrorType := "invalid_version_constraint".

Record ErrorDetails := {
  ed_RequiredVersion : string;
  ed_FoundVersion : string;
  ed_Namespace : string;
  ed_Release : string;
  ed_SearchPattern : string;
  ed_FoundNamespaces : list string;
  ed_FoundReleases : list string;
  ed_File : string;
  ed_Line : Z;
}.

(** The zero value [types.ErrorDetails{}]. *)
Definition no_details : ErrorDetails :=
  {| ed_RequiredVersion := ""; ed_FoundVersion := ""; ed_Namespace := "";
     ed_Release := ""; ed_SearchPattern := ""; ed_FoundNamespaces := [];
     ed_FoundReleases := []; ed_File := ""; ed_Line := 0 |}.

Record ValidationError := {
  ve_Type : ErrorType;
  ve_Chart : string;
  ve_Message : string;
  ve_Details : ErrorDetails;
}.

Definition NewValidationError (errorType : ErrorType) (chart message : string)
    (details : ErrorDetails) : ValidationError :=
  {| ve_Type := errorType; ve_Chart := chart; ve_Message := message;
     ve_Details := details |}.

(** Modelled from the spec: the single-chart report that [Check] of
    [pkg/checker] fills and the single-chart [main] prints (the types file
    declares the later multi-chart [CheckResult], with [ChartResults] and
    [TotalSummary]).  The fields are the spec's [CheckReport]: [success],
    [dependencyResults], [errors], [summary], [matchedNamespaces], under the
    names [Check] gives them. *)
Record CheckResult := {
  Success : bool;
  Dependencies : list DependencyResult;
  Errors : list ValidationError;
  Summary : ResultSummary;
  MatchedNamespaces : list string;
}.

(** Modelled from the spec: the single-chart configuration that [Check]
    reads ([config.ChartPath]; the types file declares the later
    [ChartPaths]), with the fields the single-chart [main] sets. *)
Record Config := {
  ChartPath : string;
  NamespacePattern : string;
  Verbose : bool;
  OutputFormat : string;
  KubeConfig : string;
}.

(** [IsSystemNamespace]: a lookup in a [map[string]bool] literal. *)
Definition systemNamespaces : gmap string bool :=
  <["kube-system" := true]> (<["kube-public" := true]>
    (<["kube-node-lease" := true]> (<["default" := false]> ∅))).

Definition IsSystemNamespace (namespace : string) : bool :=
  match systemNamespaces !! namespace with
  | Some isSystem => isSystem
  | None => false
  end.

Definition StatusSatisfied : string := "satisfied".
Definition StatusNotFound : string := "not_found".
Definition StatusVersionMismatch : string := "version_mismatch".
Definition StatusMultipleFound : string := "multiple_found".
Definition StatusError : string := "error".

(** ** Go errors

    Errors of the standard library and of the external packages are plain
    errors: only their text is ever used ([%v], [err.Error()]), so they are
    kept as that text.  The parser also returns [types.ValidationError]
    values as errors; the type assertion [err.(types.ValidationError)] of
    [Check] is the match on [error]. *)
Inductive error :=
  | PlainError (msg : string)
  | AsValidationError (e : ValidationError).

Inductive res (E A : Type) :=
  | ok (a : A)
  | failed (e : E).
Arguments ok {E A} a.
Arguments failed {E A} e.

(** ** External packages

    What the code calls outside this repository: Masterminds/semver, the
    standard [regexp], yaml.v3, and three standard-library helpers whose
    Unicode or path rules play no role here.  [regexp_match_at re s i j]
    says that the bytes [s[i:j]] are a match of [re] in [s]. *)
Class GoLibs := {
  semver_Version : Type;
  semver_Constraints : Type;
  semver_NewVersion : string → res string semver_Version;
  semver_NewConstraint : string → res string semver_Constraints;
  semver_Check : semver_Constraints → semver_Version → bool;
  regexp_Regexp : Type;
  regexp_Compile : string → res string regexp_Regexp;
  regexp_match_at : regexp_Regexp → string → nat → nat → bool;
  yaml_Unmarshal : string → res string DependenciesFile;
  strings_TrimSpace : string → string;
  filepath_Join : string → string → string;
  fmt_Sscanf_line : string → option Z;
}.

(** [Regexp.MatchString]: whether [s] contains any match of [re]. *)
Definition regexp_MatchString `{GoLibs} (re : regexp_Regexp) (s : string) : bool :=
  existsb (λ i, existsb (λ j, regexp_match_at re s i j)
                        (seq i (S (String.length s) - i)))
          (seq 0 (S (String.length s))).

(** ** The cluster

    A release as Helm's [action.List] returns it: the fields that
    [getReleasesInNamespace] reads ([rel.Chart.Metadata] and [rel.Info] are
    taken to be present, as Helm's storage returns them). *)
Record HelmRelease := {
  hr_Name : string;
  hr_Namespace : string;
  hr_ChartName : string;
  hr_ChartVersion : string;
  hr_Status : string;
  hr_Version : Z;
  hr_LastDeployed : Z;
}.

(** [release.StatusDeployed]. *)
Definition release_StatusDeployed : string := "deployed".

(** One query of the Release Directory. *)
Inductive Event :=
  | ListNamespaces
  | ListReleases (namespace : string).

Abbreviation Trace := (list Event).

#[global] Instance Event_eq_dec : EqDecision Event.
Proof. solve_decision. Defined.

(** The answer of [actionConfig.Init] followed by [listAction.Run]. *)
Inductive HelmAnswer :=
  | InitFailed (msg : string)
  | RunFailed (msg : string)
  | Listed (releases : list HelmRelease).

(** The file system and the cluster.  The cluster's answers are a function
    of the queries made before: it may change during a check. *)
Record World := {
  os_ReadFile : string → res string string;
  kube_Namespaces_List : Trace → res string (list string);
  helm_List_Run : Trace → string → HelmAnswer;
}.

(** The order in which one [range] statement walks a map: entries are
    visited by increasing rank of their key.  Every visiting order of a
    map is the order of some rank ([range_map_complete]). *)
Definition RangeOrder := string → nat.

Definition visited_before {V} (rank : RangeOrder) (a b : string * V) : Prop :=
  rank a.1 ≤ rank b.1.

#[global] Instance visited_before_dec {V} (rank : RangeOrder) (a b : string * V) :
  Decision (visited_before rank a b) := decide (rank a.1 ≤ rank b.1).

Definition range_map {V} (rank : RangeOrder) (m : gmap string V) : list (string * V) :=
  merge_sort (visited_before rank) (map_to_list m).

(** The rank that visits the keys in the order of the list [keys]. *)
Definition position (keys : list string) : RangeOrder :=
  λ key,
    match list_find (λ k, k = key) keys with
    | Some (i, _) => i
    | None => 0
    end.

(** Computations that query the cluster: the trace of queries is threaded. *)
Definition M (A : Type) := Trace → A * Trace.

#[global] Instance M_ret : MRet M := λ A a t, (a, t).

#[global] Instance M_bind : MBind M := λ A B k m t, let '(a, t') := m t in k a t'.

(** A query gets the answer the cluster gives after the queries so far,
    and is recorded. *)
Definition query {A} (e : Event) (answer : Trace → A) : M A :=
  λ t, (answer t, t ++ [e]).

Section Program.
Context `{libs : GoLibs} (world : World).

(** ** pkg/parser *)

Definition at_line (file : string) (line : Z) : ErrorDetails :=
  {| ed_RequiredVersion := ""; ed_FoundVersion := ""; ed_Namespace := "";
     ed_Release := ""; ed_SearchPattern := ""; ed_FoundNamespaces := [];
     ed_FoundReleases := []; ed_File := file; ed_Line := line |}.

(** [validateVersionConstraint]; [None] is the nil error. *)
Definition validateVersionConstraint (constraint : string) : option string :=
  if bool_decide (strings_TrimSpace constraint = "") then
    Some "version constraint cannot be empty"
  else
    match semver_NewConstraint constraint with
    | failed e => Some ("invalid version constraint '" +:+ constraint +:+ "': " +:+ e)
    | ok _ => None
    end.

(** The loop of [validateDependencies] from entry [i] on. *)
Fixpoint validate_from (deps : list Dependency) (i : nat)
    (seenNames : gmap string bool) (filePath : string) : option ValidationError :=
  match deps with
  | [] => None
  | dep :: rest =>
    let lineNumber := wrap64 (Z.of_nat i + 2) in
    if bool_decide (strings_TrimSpace (dep_Name dep) = "") then
      Some (NewValidationError ErrorTypeInvalidDependencyFile ""
              "dependency name cannot be empty" (at_line filePath lineNumber))
    else if bool_decide (strings_TrimSpace (dep_Version dep) = "") then
      Some (NewValidationError ErrorTypeInvalidDependencyFile (dep_Name dep)
              "dependency version cannot be empty" (at_line filePath lineNumber))
    else if default false (seenNames !! dep_Name dep) then
      Some (NewValidationError ErrorTypeInvalidDependencyFile (dep_Name dep)
              "duplicate dependency name" (at_line filePath lineNumber))
    else
      let seenNames := <[dep_Name dep := true]> seenNames in
      match validateVersionConstraint (dep_Version dep) with
      | Some msg =>
        Some (NewValidationError ErrorTypeInvalidVersionConstraint (dep_Name dep)
                msg (at_line filePath lineNumber))
      | None => validate_from rest (S i) seenNames filePath
      end
  end.

Definition validateDependencies (deps : DependenciesFile) (filePath : string)
    : option ValidationError :=
  validate_from (Dependencies_of deps) 0 ∅ filePath.

Definition extractLineFromYAMLError (errStr : string) : Z :=
  if strings_Contains errStr "line " then
    match fmt_Sscanf_line errStr with
    | Some line => line
    | None => 0
    end
  else 0.

Definition ParseDependencies (chartPath : string) : res error DependenciesFile :=
  let dependenciesPath := filepath_Join chartPath "dependencies.yaml" in
  match os_ReadFile world dependenciesPath with
  | failed e =>
    if strings_Contains e "no such file" || strings_Contains e "cannot find" then
      ok {| Dependencies_of := [] |}
    else
      failed (AsValidationError
        (NewValidationError ErrorTypeInvalidDependencyFile ""
           ("failed to read dependencies file: " +:+ e) (at_line dependenciesPath 0)))
  | ok data =>
    match yaml_Unmarshal data with
    | failed e =>
      let line := extractLineFromYAMLError e in
      failed (AsValidationError
        (NewValidationError ErrorTypeInvalidDependencyFile ""
           ("failed to parse YAML: " +:+ e) (at_line dependenciesPath line)))
    | ok deps =>
      match validateDependencies deps dependenciesPath with
      | Some e => failed (AsValidationError e)
      | None => ok deps
      end
    end
  end.

(** [ValidateChartPath]; [None] is the nil error. *)
Definition ValidateChartPath (chartPath : string) : option string :=
  match os_ReadFile world (filepath_Join chartPath "Chart.yaml") with
  | failed _ =>
    Some ("invalid chart path '" +:+ chartPath +:+ "': Chart.yaml not found or not readable")
  | ok _ => None
  end.

(** ** pkg/helm *)

Definition getMatchingNamespaces (pattern : string) : M (res string (list string)) :=
  namespaceList ← query ListNamespaces (kube_Namespaces_List world);
  mret
    match namespaceList with
    | failed e => failed ("failed to list namespaces: " +:+ e)
    | ok items =>
      if bool_decide (pattern = "") then
        ok (List.filter (λ namespace, negb (IsSystemNamespace namespace)) items)
      else
        match regexp_Compile pattern with
        | failed e => failed ("invalid namespace pattern '" +:+ pattern +:+ "': " +:+ e)
        | ok regex => ok (List.filter (regexp_MatchString regex) items)
        end
    end.

Definition GetMatchingNamespaces (pattern : string) : M (res string (list string)) :=
  getMatchingNamespaces pattern.

Definition to_Release (rel : HelmRelease) : Release :=
  {| rel_Name := hr_Name rel;
     rel_Namespace := hr_Namespace rel;
     rel_Chart := {| chart_Name := hr_ChartName rel; chart_Version := hr_ChartVersion rel |};
     rel_Status := hr_Status rel;
     rel_Version := hr_Version rel;
     rel_Updated := hr_LastDeployed rel |}.

Definition getReleasesInNamespace (namespace : string) : M (res string (list Release)) :=
  answer ← query (ListReleases namespace) (λ t, helm_List_Run world t namespace);
  mret
    match answer with
    | InitFailed e =>
      failed ("failed to initialize action config for namespace " +:+ namespace +:+ ": " +:+ e)
    | RunFailed e =>
      failed ("failed to list releases in namespace " +:+ namespace +:+ ": " +:+ e)
    | Listed releases =>
      ok (to_Release <$>
            List.filter (λ rel, bool_decide (hr_Status rel = release_StatusDeployed)) releases)
    end.

(** The loop of [GetReleases]: a namespace whose listing fails is skipped. *)
Fixpoint GetReleases_in (namespaces : list string) (allReleases : list Release)
    : M (list Release) :=
  match namespaces with
  | [] => mret allReleases
  | namespace :: rest =>
    r ← getReleasesInNamespace namespace;
    match r with
    | failed _ => GetReleases_in rest allReleases
    | ok releases => GetReleases_in rest (allReleases ++ releases)
    end
  end.

Definition GetReleases (namespacePattern : string) : M (res string (list Release)) :=
  r ← getMatchingNamespaces namespacePattern;
  match r with
  | failed e => mret (failed ("failed to get matching namespaces: " +:+ e))
  | ok namespaces =>
    allReleases ← GetReleases_in namespaces [];
    mret (ok allReleases)
  end.

Definition FindReleasesByChartName (chartName namespacePattern : string)
    : M (res string (list Release)) :=
  r ← GetReleases namespacePattern;
  mret
    match r with
    | failed e => failed e
    | ok allReleases =>
      ok (List.filter (λ release, bool_decide (chart_Name (rel_Chart release) = chartName))
            allReleases)
    end.

(** ** pkg/checker *)

Definition isVersionCompatible (foundVersion requiredConstraint : string)
    : res string bool :=
  match semver_NewVersion foundVersion with
  | failed e => failed ("invalid found version '" +:+ foundVersion +:+ "': " +:+ e)
  | ok version =>
    match semver_NewConstraint requiredConstraint with
    | failed e =>
      failed ("invalid version constraint '" +:+ requiredConstraint +:+ "': " +:+ e)
    | ok constraint => ok (semver_Check constraint version)
    end
  end.

(** [releasesByNamespace[release.Namespace] =
     append(releasesByNamespace[release.Namespace], release)]. *)
Definition group_release (m : gmap string (list Release)) (release : Release)
    : gmap string (list Release) :=
  <[rel_Namespace release := default [] (m !! rel_Namespace release) ++ [release]]> m.

Definition group_by_namespace (releases : list Release) : gmap string (list Release) :=
  foldl group_release ∅ releases.

(** The visiting orders of the two [range] statements over
    [releasesByNamespace] in one call of [checkSingleDependency]. *)
Record RangeOrders := {
  duplicates_order : RangeOrder;
  namespaces_order : RangeOrder;
}.

(** [len(nsReleases) > 1] on an entry of [releasesByNamespace]. *)
Definition has_duplicates (entry : string * list Release) : bool :=
  bool_decide (1 < length entry.2).

Definition with_outcome (result : DependencyResult) (status : string)
    (found : list Release) (message : string) : DependencyResult :=
  {| dr_Name := dr_Name result; dr_RequiredVersion := dr_RequiredVersion result;
     dr_Status := status; dr_FoundReleases := found; dr_Error := message |}.

(** [checkSingleDependency] once the lookup has returned [releases]. *)
Definition classify (orders : RangeOrders) (dep : Dependency)
    (result : DependencyResult) (releases : list Release) : DependencyResult :=
  match releases with
  | [] => with_outcome result StatusNotFound (dr_FoundReleases result) (dr_Error result)
  | release :: _ =>
    let releasesByNamespace := group_by_namespace releases in
    match List.find has_duplicates
                    (range_map (duplicates_order orders) releasesByNamespace) with
    | Some (namespace, nsReleases) =>
      with_outcome result StatusMultipleFound nsReleases
        ("multiple instances found in namespace " +:+ namespace)
    | None =>
      if bool_decide (1 < size releasesByNamespace) then
        let namespaces := (range_map (namespaces_order orders) releasesByNamespace).*1 in
        with_outcome result StatusMultipleFound releases
          ("found in multiple namespaces: " +:+ strings_Join namespaces ", ")
      else
        match isVersionCompatible (chart_Version (rel_Chart release)) (dep_Version dep) with
        | failed e =>
          with_outcome result StatusError [release]
            ("version compatibility check failed: " +:+ e)
        | ok compatible =>
          if compatible then
            with_outcome result StatusSatisfied [release] (dr_Error result)
          else
            with_outcome result StatusVersionMismatch [release] (dr_Error result)
        end
    end
  end.

(** The [result] that [checkSingleDependency] starts from. *)
Definition pending (dep : Dependency) : DependencyResult :=
  {| dr_Name := dep_Name dep; dr_RequiredVersion := dep_Version dep;
     dr_Status := StatusError; dr_FoundReleases := []; dr_Error := "" |}.

Definition checkSingleDependency (orders : RangeOrders) (dep : Dependency)
    (namespacePattern : string) : M DependencyResult :=
  let result := pending dep in
  r ← FindReleasesByChartName (dep_Name dep) namespacePattern;
  mret
    match r with
    | failed e =>
      with_outcome result (dr_Status result) (dr_FoundReleases result)
        ("failed to find releases: " +:+ e)
    | ok releases => classify orders dep result releases
    end.

Definition details_required (required : string) : ErrorDetails :=
  {| ed_RequiredVersion := required; ed_FoundVersion := ""; ed_Namespace := "";
     ed_Release := ""; ed_SearchPattern := ""; ed_FoundNamespaces := [];
     ed_FoundReleases := []; ed_File := ""; ed_Line := 0 |}.

(** [createValidationError]; [None] is the run-time panic of an index out
    of range in [depResult.FoundReleases[0]]. *)
Definition createValidationError (depResult : DependencyResult)
    (namespacePattern : string) : option ValidationError :=
  if bool_decide (dr_Status depResult = StatusNotFound) then
    Some (NewValidationError ErrorTypeDependencyNotFound (dr_Name depResult)
      "No releases found matching the dependency requirements"
      {| ed_RequiredVersion := dr_RequiredVersion depResult; ed_FoundVersion := "";
         ed_Namespace := ""; ed_Release := ""; ed_SearchPattern := namespacePattern;
         ed_FoundNamespaces := []; ed_FoundReleases := []; ed_File := ""; ed_Line := 0 |})
  else if bool_decide (dr_Status depResult = StatusVersionMismatch) then
    release ← dr_FoundReleases depResult !! 0%nat;
    Some (NewValidationError ErrorTypeVersionMismatch (dr_Name depResult)
      "Deployed version does not satisfy version constraint"
      {| ed_RequiredVersion := dr_RequiredVersion depResult;
         ed_FoundVersion := chart_Version (rel_Chart release);
         ed_Namespace := rel_Namespace release; ed_Release := rel_Name release;
         ed_SearchPattern := ""; ed_FoundNamespaces := []; ed_FoundReleases := [];
         ed_File := ""; ed_Line := 0 |})
  else if bool_decide (dr_Status depResult = StatusMultipleFound) then
    if strings_Contains (dr_Error depResult) "multiple namespaces" then
      let namespaces := rel_Namespace <$> dr_FoundReleases depResult in
      Some (NewValidationError ErrorTypeMultipleDeployments (dr_Name depResult)
        "Dependency found in multiple namespaces, cannot determine which to use"
        {| ed_RequiredVersion := dr_RequiredVersion depResult; ed_FoundVersion := "";
           ed_Namespace := ""; ed_Release := ""; ed_SearchPattern := "";
           ed_FoundNamespaces := namespaces; ed_FoundReleases := []; ed_File := "";
           ed_Line := 0 |})
    else
      let releases := rel_Name <$> dr_FoundReleases depResult in
      first ← dr_FoundReleases depResult !! 0%nat;
      Some (NewValidationError ErrorTypeDuplicateInNamespace (dr_Name depResult)
        "Multiple instances of the same chart found in single namespace"
        {| ed_RequiredVersion := dr_RequiredVersion depResult; ed_FoundVersion := "";
           ed_Namespace := rel_Namespace first; ed_Release := "";
           ed_SearchPattern := ""; ed_FoundNamespaces := [];
           ed_FoundReleases := releases; ed_File := ""; ed_Line := 0 |})
  else
    Some (NewValidationError ErrorTypeHelmClientError (dr_Name depResult)
      (dr_Error depResult) (details_required (dr_RequiredVersion depResult))).

Definition getMatchedNamespaces (namespacePattern : string) : M (res string (list string)) :=
  GetMatchingNamespaces namespacePattern.

(** The zero value [types.ResultSummary{}]. *)
Definition no_summary : ResultSummary :=
  {| s_Total := 0; s_Satisfied := 0; s_NotFound := 0; s_Mismatched := 0; s_Multiple := 0;
     s_Errors := 0 |}.

(** The initial [result] of [Check]. *)
Definition empty_result : CheckResult :=
  {| Success := true; Dependencies := []; Errors := []; Summary := no_summary;
     MatchedNamespaces := [] |}.

(** [result.Success = false; result.Errors = append(result.Errors, e)]. *)
Definition fail_with (result : CheckResult) (e : ValidationError) : CheckResult :=
  {| Success := false; Dependencies := Dependencies result;
     Errors := Errors result ++ [e]; Summary := Summary result;
     MatchedNamespaces := MatchedNamespaces result |}.

Definition add_error (result : CheckResult) (e : ValidationError) : CheckResult :=
  {| Success := Success result; Dependencies := Dependencies result;
     Errors := Errors result ++ [e]; Summary := Summary result;
     MatchedNamespaces := MatchedNamespaces result |}.

Definition set_MatchedNamespaces (result : CheckResult) (namespaces : list string)
    : CheckResult :=
  {| Success := Success result; Dependencies := Dependencies result;
     Errors := Errors result; Summary := Summary result;
     MatchedNamespaces := namespaces |}.

(** [result.Summary.Total++] and the [switch depResult.Status]. *)
Definition count_status (s : ResultSummary) (status : string) : ResultSummary :=
  let total := incr (s_Total s) in
  if bool_decide (status = StatusSatisfied) then
    {| s_Total := total; s_Satisfied := incr (s_Satisfied s); s_NotFound := s_NotFound s;
       s_Mismatched := s_Mismatched s; s_Multiple := s_Multiple s;
       s_Errors := s_Errors s |}
  else if bool_decide (status = StatusNotFound) then
    {| s_Total := total; s_Satisfied := s_Satisfied s; s_NotFound := incr (s_NotFound s);
       s_Mismatched := s_Mismatched s; s_Multiple := s_Multiple s;
       s_Errors := s_Errors s |}
  else if bool_decide (status = StatusVersionMismatch) then
    {| s_Total := total; s_Satisfied := s_Satisfied s; s_NotFound := s_NotFound s;
       s_Mismatched := incr (s_Mismatched s); s_Multiple := s_Multiple s;
       s_Errors := s_Errors s |}
  else if bool_decide (status = StatusMultipleFound) then
    {| s_Total := total; s_Satisfied := s_Satisfied s; s_NotFound := s_NotFound s;
       s_Mismatched := s_Mismatched s; s_Multiple := incr (s_Multiple s);
       s_Errors := s_Errors s |}
  else if bool_decide (status = StatusError) then
    {| s_Total := total; s_Satisfied := s_Satisfied s; s_NotFound := s_NotFound s;
       s_Mismatched := s_Mismatched s; s_Multiple := s_Multiple s;
       s_Errors := incr (s_Errors s) |}
  else
    {| s_Total := total; s_Satisfied := s_Satisfied s; s_NotFound := s_NotFound s;
       s_Mismatched := s_Mismatched s; s_Multiple := s_Multiple s;
       s_Errors := s_Errors s |}.

(** [result.Success] after the [switch]: cleared by the four failing cases. *)
Definition success_after (success : bool) (status : string) : bool :=
  if bool_decide (status = StatusSatisfied) then success
  else if bool_decide (status = StatusNotFound) then false
  else if bool_decide (status = StatusVersionMismatch) then false
  else if bool_decide (status = StatusMultipleFound) then false
  else if bool_decide (status = StatusError) then false
  else success.

(** The part of the loop body of [Check] up to the summary update. *)
Definition record_result (result : CheckResult) (depResult : DependencyResult)
    : CheckResult :=
  {| Success := success_after (Success result) (dr_Status depResult);
     Dependencies := Dependencies result ++ [depResult];
     Errors := Errors result;
     Summary := count_status (Summary result) (dr_Status depResult);
     MatchedNamespaces := MatchedNamespaces result |}.

(** The loop of [Check] over [deps.Dependencies], from entry [i] on;
    [orders i] are the map visiting orders met while checking entry [i].
    [None] is a panic. *)
Fixpoint check_each (orders : nat → RangeOrders) (i : nat) (deps : list Dependency)
    (namespacePattern : string) (result : CheckResult) : M (option CheckResult) :=
  match deps with
  | [] => mret (Some result)
  | dep :: rest =>
    depResult ← checkSingleDependency (orders i) dep namespacePattern;
    let result := record_result result depResult in
    if bool_decide (dr_Status depResult ≠ StatusSatisfied) then
      match createValidationError depResult namespacePattern with
      | None => mret None
      | Some validationError =>
        check_each orders (S i) rest namespacePattern (add_error result validationError)
      end
    else check_each orders (S i) rest namespacePattern result
  end.

(** [Check]: the report and the returned [error] ([None] is nil); the outer
    [None] is a panic. *)
Definition Check (orders : nat → RangeOrders) (config : Config)
    : M (option (CheckResult * option error)) :=
  let result := empty_result in
  match ValidateChartPath (ChartPath config) with
  | Some msg =>
    mret (Some (fail_with result
      (NewValidationError ErrorTypeInvalidDependencyFile "" msg
         (at_line (ChartPath config) 0)), None))
  | None =>
    match ParseDependencies (ChartPath config) with
    | failed err =>
      match err with
      | AsValidationError validationErr =>
        mret (Some (fail_with result validationErr, None))
      | PlainError msg =>
        mret (Some (fail_with result
          (NewValidationError ErrorTypeInvalidDependencyFile "" msg no_details), None))
      end
    | ok deps =>
      let namespacePattern := NamespacePattern config in
      r ← getMatchedNamespaces namespacePattern;
      match r with
      | failed e =>
        mret (Some (fail_with result
          (NewValidationError ErrorTypeHelmClientError ""
             ("failed to get matching namespaces: " +:+ e) no_details), None))
      | ok matchedNamespaces =>
        let result := set_MatchedNamespaces result matchedNamespaces in
        if bool_decide (length (Dependencies_of deps) = 0%nat) then
          mret (Some (result, None))
        else
          looped ← check_each orders 0 (Dependencies_of deps) namespacePattern result;
          mret (match looped with
                | Some result => Some (result, None)
                | None => None
                end)
      end
    end
  end.

End Program.

(** ** More of the program *)

(** [%d] of [fmt] on an [int]. *)
Definition fmt_d (n : Z) : string := NilZero.string_of_int (Z.to_int n).

(** [%v] of [fmt] on a [[]string]. *)
Definition fmt_v (elems : list string) : string := "[" +:+ strings_Join elems " " +:+ "]".

(** [ValidationError.Error] of [pkg/types]. *)
Definition ValidationError_Error (e : ValidationError) : string :=
  if bool_decide (ve_Type e = ErrorTypeDependencyNotFound) then
    "Dependency not found: " +:+ ve_Chart e +:+ " (required: " +:+
    ed_RequiredVersion (ve_Details e) +:+ ", search pattern: " +:+
    ed_SearchPattern (ve_Details e) +:+ ")"
  else if bool_decide (ve_Type e = ErrorTypeVersionMismatch) then
    "Version constraint not satisfied: " +:+ ve_Chart e +:+ " (found: " +:+
    ed_FoundVersion (ve_Details e) +:+ ", required: " +:+
    ed_RequiredVersion (ve_Details e) +:+ ", namespace: " +:+
    ed_Namespace (ve_Details e) +:+ ")"
  else if bool_decide (ve_Type e = ErrorTypeMultipleDeployments) then
    "Multiple deployments found: " +:+ ve_Chart e +:+ " in namespaces: " +:+
    fmt_v (ed_FoundNamespaces (ve_Details e))
  else if bool_decide (ve_Type e = ErrorTypeDuplicateInNamespace) then
    "Multiple instances in namespace: " +:+ ve_Chart e +:+ " in " +:+
    ed_Namespace (ve_Details e) +:+ " (releases: " +:+
    fmt_v (ed_FoundReleases (ve_Details e)) +:+ ")"
  else if bool_decide (ve_Type e = ErrorTypeInvalidDependencyFile) then
    "Invalid dependencies file: " +:+ ed_File (ve_Details e) +:+ " (line " +:+
    fmt_d (ed_Line (ve_Details e)) +:+ "): " +:+ ve_Message e
  else if bool_decide (ve_Type e = ErrorTypeHelmClientError) then
    "Helm client error: " +:+ ve_Message e
  else if bool_decide (ve_Type e = ErrorTypeInvalidVersionConstraint) then
    "Invalid version constraint: " +:+ ve_Message e +:+ " for chart " +:+ ve_Chart e
  else
    "Unknown error: " +:+ ve_Message e.

Definition OutputFormatText : string := "text".
Definition OutputFormatJSON : string := "json".
Definition OutputFormatYAML : string := "yaml".

(** [getStatusSymbol] of [main]. *)
Definition getStatusSymbol (status : string) : string :=
  if bool_decide (status = StatusSatisfied) then "✓"
  else if bool_decide (status = StatusNotFound) then "✗"
  else if bool_decide (status = StatusVersionMismatch) then "✗"
  else if bool_decide (status = StatusMultipleFound) then "✗"
  else if bool_decide (status = StatusError) then "✗"
  else "?".

(** The part of the file system that [FindCharts] looks at: whether
    [os.Stat] of a path succeeds, and the answers of [filepath.Glob] and
    [filepath.Abs]. *)
Record Disk := {
  os_Stat : string → bool;
  filepath_Glob : string → res string (list string);
  filepath_Abs : string → res string string;
}.

(** The decoding of a [Chart.yaml] by yaml.v3, into the [name] and
    [version] that [GetChartInfo] asks for. *)
Class ChartDecoder := {
  yaml_Unmarshal_chart : string → res string (string * string);
}.

Section MoreProgram.
Context `{libs : GoLibs} `{decoder : ChartDecoder} (world : World) (disk : Disk).

(** *** pkg/checker: the configuration *)

(** [validateNamespacePattern]; [None] is the nil error. *)
Definition validateNamespacePattern (pattern : string) : option string :=
  match regexp_Compile pattern with
  | failed e => Some e
  | ok _ => None
  end.

(** [ValidateConfig]; [None] is the nil error. *)
Definition ValidateConfig (config : Config) : option string :=
  if bool_decide (ChartPath config = "") then Some "chart path is required"
  else
    match
      (if bool_decide (NamespacePattern config ≠ "") then
         validateNamespacePattern (NamespacePattern config)
       else None)
    with
    | Some e => Some ("invalid namespace pattern: " +:+ e)
    | None =>
      if bool_decide (OutputFormat config = OutputFormatText)
         || bool_decide (OutputFormat config = OutputFormatJSON)
         || bool_decide (OutputFormat config = OutputFormatYAML)
         || bool_decide (OutputFormat config = "") then None
      else
        Some ("invalid output format '" +:+ OutputFormat config +:+
              "': must be one of text, json, yaml")
    end.

(** *** pkg/parser: charts *)

Definition GetChartInfo (chartPath : string) : res string ChartInfo :=
  let chartYamlPath := filepath_Join chartPath "Chart.yaml" in
  match os_ReadFile world chartYamlPath with
  | failed e => failed ("failed to read Chart.yaml: " +:+ e)
  | ok data =>
    match yaml_Unmarshal_chart data with
    | failed e => failed ("failed to parse Chart.yaml: " +:+ e)
    | ok (name, version) =>
      if bool_decide (name = "") then failed "chart name is required in Chart.yaml"
      else if bool_decide (version = "") then
        failed "chart version is required in Chart.yaml"
      else ok {| chart_Name := name; chart_Version := version |}
    end
  end.

Definition isValidChartDirectory (path : string) : bool :=
  os_Stat disk (filepath_Join path "Chart.yaml").

Definition findChartsForPattern (pattern : string) : res string (list string) :=
  if strings_Contains pattern "*" || strings_Contains pattern "?"
     || strings_Contains pattern "[" then
    match filepath_Glob disk pattern with
    | failed e => failed ("invalid glob pattern: " +:+ e)
    | ok matches => ok (List.filter isValidChartDirectory matches)
    end
  else if isValidChartDirectory pattern then ok [pattern]
  else failed ("'" +:+ pattern +:+ "' is not a valid chart directory").

(** The inner loop of [FindCharts]: the paths of one pattern are made
    absolute and added unless seen; a path that cannot be made absolute is
    skipped. *)
Fixpoint add_unique (paths chartPaths : list string) (seenPaths : gmap string bool)
    : list string * gmap string bool :=
  match paths with
  | [] => (chartPaths, seenPaths)
  | path :: rest =>
    match filepath_Abs disk path with
    | failed _ => add_unique rest chartPaths seenPaths
    | ok absPath =>
      if default false (seenPaths !! absPath) then add_unique rest chartPaths seenPaths
      else add_unique rest (chartPaths ++ [absPath]) (<[absPath := true]> seenPaths)
    end
  end.

(** The outer loop of [FindCharts]. *)
Fixpoint FindCharts_from (patterns chartPaths : list string)
    (seenPaths : gmap string bool) : res string (list string) :=
  match patterns with
  | [] => ok chartPaths
  | pattern :: rest =>
    match findChartsForPattern pattern with
    | failed e => failed ("failed to process pattern '" +:+ pattern +:+ "': " +:+ e)
    | ok paths =>
      let '(chartPaths, seenPaths) := add_unique paths chartPaths seenPaths in
      FindCharts_from rest chartPaths seenPaths
    end
  end.

Definition FindCharts (patterns : list string) : res string (list string) :=
  FindCharts_from patterns [] ∅.

End MoreProgram.

(** ** Vocabulary of the statements *)

(** The releases of [releases] that sit in [namespace], in order. *)
Definition in_namespace (namespace : string) (releases : list Release) : list Release :=
  filter (λ release, rel_Namespace release = namespace) releases.

(** Some namespace holds more than one of the releases. *)
Definition duplicated_in_a_namespace (releases : list Release) : Prop :=
  Exists (λ release, 1 < length (in_namespace (rel_Namespace release) releases)) releases.

(** The distinct namespaces of the releases. *)
Definition namespaces_of (releases : list Release) : list string :=
  remove_dups (rel_Namespace <$> releases).

(** The releases lie in more than one distinct namespace. *)
Definition spread_over_namespaces (releases : list Release) : Prop :=
  1 < length (namespaces_of releases).

#[global] Instance duplicated_in_a_namespace_dec releases :
  Decision (duplicated_in_a_namespace releases) :=
  decide (Exists (λ release, 1 < length (in_namespace (rel_Namespace release) releases))
                 releases).

#[global] Instance spread_over_namespaces_dec releases :
  Decision (spread_over_namespaces releases) :=
  decide (1 < length (namespaces_of releases)).

(** The five outcomes. *)
Definition outcomes : list string :=
  [StatusSatisfied; StatusNotFound; StatusVersionMismatch; StatusMultipleFound;
   StatusError].

(** The results that are not [Satisfied], in order. *)
Definition failures (results : list DependencyResult) : list DependencyResult :=
  filter (λ d, dr_Status d ≠ StatusSatisfied) results.

(** What [checkSingleDependency] guarantees of its result: one of the five
    outcomes, with one release found on a mismatch and several on
    [MultipleFound]. *)
Definition resolved (d : DependencyResult) : Prop :=
  dr_Status d ∈ outcomes ∧
  (dr_Status d = StatusVersionMismatch → length (dr_FoundReleases d) = 1) ∧
  (dr_Status d = StatusMultipleFound → 1 < length (dr_FoundReleases d)).

(** How many of the results have the outcome [status]. *)
Definition count_of (status : string) (results : list DependencyResult) : Z :=
  Z.of_nat (length (filter (λ d, dr_Status d = status) results)).

(** [seenNames] holds exactly the names of the entries already accepted. *)
Definition seen_are (seenNames : gmap string bool) (earlier : list Dependency) : Prop :=
  ∀ name, default false (seenNames !! name) = true ↔ name ∈ dep_Name <$> earlier.

(** The name holds no space character (no Kubernetes name does: namespace
    names are DNS labels). *)
Definition no_space (s : string) : Prop := strings_Contains s " " = false.

(** How a [MultipleFound] result came about: several releases in the one
    namespace named by the message, or one release in each of the several
    namespaces listed by the message. *)
Definition ambiguity (d : DependencyResult) : Prop :=
  (∃ namespace,
     dr_Error d = "multiple instances found in namespace " +:+ namespace ∧
     1 < length (dr_FoundReleases d) ∧
     Forall (λ release, rel_Namespace release = namespace) (dr_FoundReleases d)) ∨
  (∃ namespaces,
     dr_Error d = "found in multiple namespaces: " +:+ strings_Join namespaces ", " ∧
     spread_over_namespaces (dr_FoundReleases d) ∧
     ¬ duplicated_in_a_namespace (dr_FoundReleases d)).

(** The error kind the taxonomy gives the failed result [d]. *)
Definition follows_taxonomy (d : DependencyResult) (e : ValidationError) : Prop :=
  (dr_Status d = StatusNotFound → ve_Type e = ErrorTypeDependencyNotFound) ∧
  (dr_Status d = StatusVersionMismatch →
     ve_Type e = ErrorTypeVersionMismatch ∧ length (dr_FoundReleases d) = 1) ∧
  (dr_Status d = StatusMultipleFound →
     (ve_Type e = ErrorTypeMultipleDeployments ∨
      ve_Type e = ErrorTypeDuplicateInNamespace) ∧
     (ve_Type e = ErrorTypeMultipleDeployments ↔
      spread_over_namespaces (dr_FoundReleases d)) ∧
     (ve_Type e = ErrorTypeDuplicateInNamespace ↔
      duplicated_in_a_namespace (dr_FoundReleases d))) ∧
  (dr_Status d = StatusError → ve_Type e = ErrorTypeHelmClientError).




Section Vocabulary.
Context `{libs : GoLibs} (world : World).

(** The results of checking the entries of [deps] one after the other, from
    entry [i] on: the calls of [checkSingleDependency] made by the loop of
    [Check]. *)
Fixpoint resolve_each (orders : nat → RangeOrders) (i : nat) (deps : list Dependency)
    (namespacePattern : string) : M (list DependencyResult) :=
  match deps with
  | [] => mret []
  | dep :: rest =>
    depResult ← checkSingleDependency world (orders i) dep namespacePattern;
    results ← resolve_each orders (S i) rest namespacePattern;
    mret (depResult :: results)
  end.

(** The check gets as far as resolving dependencies: the chart path is
    valid, the declaration parses and validates, and the namespaces are
    enumerated. *)
Definition reaches_resolution (config : Config) (t : Trace) : Prop :=
  ValidateChartPath world (ChartPath config) = None ∧
  (∃ deps, ParseDependencies world (ChartPath config) = ok deps) ∧
  (∃ namespaces,
     (getMatchedNamespaces world (NamespacePattern config) t).1 = ok namespaces).

(** The structural problems [validateDependencies] rejects in an entry,
    given the entries before it: a blank name, a blank constraint, a name
    already used. *)
Definition structural_problem (earlier : list Dependency) (dep : Dependency) : Prop :=
  strings_TrimSpace (dep_Name dep) = "" ∨
  strings_TrimSpace (dep_Version dep) = "" ∨
  dep_Name dep ∈ dep_Name <$> earlier.

#[global] Instance structural_problem_dec earlier dep :
  Decision (structural_problem earlier dep) :=
  decide (strings_TrimSpace (dep_Name dep) = "" ∨
          strings_TrimSpace (dep_Version dep) = "" ∨
          dep_Name dep ∈ dep_Name <$> earlier).

(** An entry that validation rejects: a structural problem, or a
    constraint that does not parse. *)
Definition invalid_entry (earlier : list Dependency) (dep : Dependency) : Prop :=
  structural_problem earlier dep ∨
  ∃ e, semver_NewConstraint (dep_Version dep) = failed e.

(** Entry [k] of [deps] is the first that validation rejects. *)
Definition first_invalid (deps : list Dependency) (k : nat) (dep : Dependency) : Prop :=
  deps !! k = Some dep ∧
  invalid_entry (take k deps) dep ∧
  ∀ j dep', j < k → deps !! j = Some dep' → ¬ invalid_entry (take j deps) dep'.

(** The report of a check aborted with the single error [e]. *)
Definition aborted (e : ValidationError) : CheckResult :=
  {| Success := false; Dependencies := []; Errors := [e]; Summary := no_summary;
     MatchedNamespaces := [] |}.

(** The namespaces of the cluster do not change during the check. *)
Definition steady_namespaces : Prop :=
  ∀ t t', kube_Namespaces_List world t = kube_Namespaces_List world t'.

(** Every release the cluster lists sits in a namespace whose name holds
    no space. *)
Definition plain_namespaces : Prop :=
  ∀ t namespace releases,
    helm_List_Run world t namespace = Listed releases →
    Forall (λ rel, no_space (hr_Namespace rel)) releases.

End Vocabulary.



(** ** A small cluster to run the checker on

    Stand-ins for the external packages, exact on the inputs used below:
    versions and constraints are plain [x.y.z] texts (a constraint [x.y.z]
    asks for that version), patterns are literal texts, and the YAML decoder
    knows the documents of this module. *)
Module Demo.

Definition starts_with_digit (s : string) : bool :=
  match s with
  | String c _ => bool_decide (is_Some (Ascii.is_nat c))
  | EmptyString => false
  end.

Fixpoint trim_left (s : string) : string :=
  match s with
  | String c s' => if Ascii.is_space c then trim_left s' else s
  | EmptyString => EmptyString
  end.

Definition trim (s : string) : string :=
  String.rev (trim_left (String.rev (trim_left s))).

Definition redis := {| dep_Name := "redis"; dep_Version := "6.2.1" |}.
Definition kafka := {| dep_Name := "kafka"; dep_Version := "3.4.0" |}.

Definition doc_redis : string :=
"dependencies:
- name: redis
  version: 6.2.1
".

Definition doc_redis_kafka : string :=
"dependencies:
- name: redis
  version: 6.2.1
- name: kafka
  version: 3.4.0
".

Definition doc_redis_twice : string :=
"dependencies:
- name: redis
  version: 6.2.1
- name: redis
  version: 6.2.1
".

Definition decode (data : string) : res string DependenciesFile :=
  if bool_decide (data = doc_redis) then ok {| Dependencies_of := [redis] |}
  else if bool_decide (data = doc_redis_kafka) then
    ok {| Dependencies_of := [redis; kafka] |}
  else if bool_decide (data = doc_redis_twice) then
    ok {| Dependencies_of := [redis; redis] |}
  else failed "yaml: unmarshal errors".

#[export] Instance libs : GoLibs := {|
  semver_Version := string;
  semver_Constraints := string;
  semver_NewVersion v :=
    if starts_with_digit v then ok v else failed "Invalid Semantic Version";
  semver_NewConstraint c :=
    if starts_with_digit c then ok c else failed ("improper constraint: " +:+ c);
  semver_Check c v := bool_decide (c = v);
  regexp_Regexp := string;
  regexp_Compile p :=
    if strings_Contains p "(" then
      failed ("error parsing regexp: missing closing ): `" +:+ p +:+ "`")
    else ok p;
  regexp_match_at re s i j := bool_decide (String.substring i (j - i) s = re);
  yaml_Unmarshal := decode;
  strings_TrimSpace := trim;
  filepath_Join dir file := dir +:+ "/" +:+ file;
  fmt_Sscanf_line _ := None;
|}.

(** A chart directory [chart] with a [Chart.yaml] and, when [document] is
    given, a [dependencies.yaml] holding it. *)
Definition files (document : option string) (path : string) : res string string :=
  if bool_decide (path = "chart/Chart.yaml") then ok "name: app"
  else if bool_decide (path = "chart/dependencies.yaml") then
    match document with
    | Some data => ok data
    | None => failed "open chart/dependencies.yaml: no such file or directory"
    end
  else failed ("open " +:+ path +:+ ": no such file or directory").

(** No file at all. *)
Definition no_files (path : string) : res string string :=
  failed ("open " +:+ path +:+ ": no such file or directory").

Definition deployed (name namespace chart version : string) : HelmRelease :=
  {| hr_Name := name; hr_Namespace := namespace; hr_ChartName := chart;
     hr_ChartVersion := version; hr_Status := "deployed"; hr_Version := 1;
     hr_LastDeployed := 0 |}.

Definition releases_in (releases : list HelmRelease) (namespace : string) : HelmAnswer :=
  Listed (List.filter (λ rel, bool_decide (hr_Namespace rel = namespace)) releases).

(** A cluster that does not change during the check. *)
Definition steady (readFile : string → res string string) (namespaces : list string)
    (releases : list HelmRelease) : World :=
  {| os_ReadFile := readFile;
     kube_Namespaces_List _ := ok namespaces;
     helm_List_Run _ := releases_in releases |}.


(** A cluster whose namespaces cannot be listed. *)
Definition unreachable (readFile : string → res string string) : World :=
  {| os_ReadFile := readFile;
     kube_Namespaces_List _ := failed "connection refused";
     helm_List_Run _ _ := InitFailed "connection refused" |}.

Definition config (pattern : string) : Config :=
  {| ChartPath := "chart"; NamespacePattern := pattern; Verbose := false;
     OutputFormat := "text"; KubeConfig := "" |}.

(** Visit the key [first] before every other key. *)
Definition first_key (first : string) : RangeOrder :=
  λ key, if bool_decide (key = first) then 0 else 1.

Definition visiting (first : string) : nat → RangeOrders :=
  λ _, {| duplicates_order := first_key first; namespaces_order := first_key first |}.

Definition redis_prod := deployed "cache" "prod" "redis" "6.2.1".
Definition redis_prod_old := deployed "cache-old" "prod" "redis" "6.0.9".
Definition redis_staging := deployed "cache" "staging" "redis" "6.2.1".
Definition redis_staging_old := deployed "cache-old" "staging" "redis" "6.0.9".
Definition redis_7 := deployed "cache" "prod" "redis" "7.0.0".
Definition kafka_staging := deployed "bus" "staging" "kafka" "3.4.0".

(** Scenario D: [redis] deployed once in [prod] and once in [staging]. *)
Definition two_namespaces : World :=
  steady (files (Some doc_redis)) ["prod"; "staging"; "kube-system"]
    [redis_prod; redis_staging].

(** Scenario E: a declaration that names [redis] twice. *)
Definition declared_twice : World :=
  steady (files (Some doc_redis_twice)) ["prod"] [redis_prod].

(** Scenario F: a chart without [dependencies.yaml]. *)
Definition nothing_declared : World :=
  steady (files None) ["prod"] [redis_prod].

(** Scenario F on a cluster that cannot be reached. *)
Definition nothing_declared_unreachable : World := unreachable (files None).

(** Two dependencies, each deployed once. *)
Definition two_dependencies : World :=
  steady (files (Some doc_redis_kafka)) ["prod"; "staging"] [redis_prod; kafka_staging].


End Demo.

Section MoreVocabulary.
Context `{libs : GoLibs} (world : World) (disk : Disk).

(** Helm's answers do not change during the check. *)
Definition steady_releases : Prop :=
  ∀ t t' namespace, helm_List_Run world t namespace = helm_List_Run world t' namespace.

(** The deployed releases that Helm lists in a namespace when asked after
    the queries [t]; none when the listing fails. *)
Definition deployed_at (t : Trace) (namespace : string) : list Release :=
  match helm_List_Run world t namespace with
  | Listed releases =>
    to_Release <$>
      List.filter (λ rel, bool_decide (hr_Status rel = release_StatusDeployed)) releases
  | _ => []
  end.

(** The same on a cluster whose Helm answers do not change. *)
Definition deployed_in (namespace : string) : list Release :=
  deployed_at [] namespace.

(** What a lookup in the namespaces selected by [pattern] may query. *)
Definition in_scope (pattern namespace : string) : Prop :=
  (pattern = "" → IsSystemNamespace namespace = false) ∧
  (pattern ≠ "" →
   ∀ re, regexp_Compile pattern = ok re → regexp_MatchString re namespace = true).

(** The pattern is a glob pattern for [findChartsForPattern]. *)
Definition has_wildcard (pattern : string) : bool :=
  strings_Contains pattern "*" || strings_Contains pattern "?"
  || strings_Contains pattern "[".

(** The paths that a pattern of [FindCharts] stands for: the matches of a
    glob pattern, the pattern itself otherwise. *)
Definition candidate (pattern path : string) : Prop :=
  if has_wildcard pattern then
    ∃ matches, filepath_Glob disk pattern = ok matches ∧ path ∈ matches
  else path = pattern.

(** The pattern makes [FindCharts] fail: a glob pattern that
    [filepath.Glob] rejects, or a plain path that is no chart directory. *)
Definition bad_pattern (pattern : string) : Prop :=
  if has_wildcard pattern then ∃ e, filepath_Glob disk pattern = failed e
  else isValidChartDirectory disk pattern = false.

(** [seenPaths] holds exactly the paths collected so far. *)
Definition seen_paths (seenPaths : gmap string bool) (chartPaths : list string) : Prop :=
  ∀ path, default false (seenPaths !! path) = true ↔ path ∈ chartPaths.

End MoreVocabulary.

(** ** More sample runs *)

Module MoreDemo.
Import Demo.

(** A cluster that lists its namespaces while Helm cannot be initialised in
    any of them. *)
Definition helm_down : World :=
  {| os_ReadFile := files (Some doc_redis);
     kube_Namespaces_List _ := ok ["prod"; "staging"];
     helm_List_Run _ _ := InitFailed "Kubernetes cluster unreachable" |}.

(** A working directory [/work] with the charts [charts/app] and
    [charts/db], beside a plain file [charts/README.md]. *)
Definition disk : Disk :=
  {| os_Stat path :=
       bool_decide (path = "charts/app/Chart.yaml")
       || bool_decide (path = "charts/db/Chart.yaml");
     filepath_Glob pattern :=
       if bool_decide (pattern = "charts/*") then
         ok ["charts/README.md"; "charts/app"; "charts/db"]
       else if strings_Contains pattern "[" then failed "syntax error in pattern"
       else ok [];
     filepath_Abs path := ok ("/work/" +:+ path) |}.

End MoreDemo.

(** Pick the [n]-th of the [outcomes]. *)
Tactic Notation "outcome" integer(n) := do n right; left.


Section ProgramFacts.
Context `{libs : GoLibs} (world : World).

(** *** The grouping map *)

Lemma group_release_lookup m release namespace :
  group_release m release !! namespace =
  if decide (rel_Namespace release = namespace)
  then Some (default [] (m !! namespace) ++ [release])
  else m !! namespace.
Proof.
  unfold group_release. rewrite lookup_insert.
  destruct (decide (rel_Namespace release = namespace)) as [->|]; done.
Qed.

Lemma foldl_group_lookup releases : ∀ m namespace,
  foldl group_release m releases !! namespace =
  match m !! namespace with
  | Some l => Some (l ++ in_namespace namespace releases)
  | None =>
    match in_namespace namespace releases with
    | [] => None
    | l => Some l
    end
  end.
Proof.
  induction releases as [|r rs IH]; intros m namespace; simpl.
  - destruct (m !! namespace); by rewrite ?app_nil_r.
  - rewrite IH, group_release_lookup. unfold in_namespace. rewrite filter_cons.
    destruct (decide (rel_Namespace r = namespace)) as [Heq|Hne].
    + destruct (m !! namespace); simpl; by rewrite <- ?app_assoc.
    + done.
Qed.

Lemma group_by_namespace_lookup releases namespace l :
  group_by_namespace releases !! namespace = Some l ↔
  l = in_namespace namespace releases ∧ l ≠ [].
Proof.
  unfold group_by_namespace. rewrite foldl_group_lookup, lookup_empty.
  destruct (in_namespace namespace releases) eqn:E.
  - split; [done|]. by intros [-> ?].
  - split; [by intros [= <-]|]. by intros [-> _].
Qed.

Lemma in_namespace_nonempty release releases :
  release ∈ releases → in_namespace (rel_Namespace release) releases ≠ [].
Proof.
  intros Hin Hnil. assert (release ∈ in_namespace (rel_Namespace release) releases) as Hr.
  { unfold in_namespace. apply list_elem_of_filter. done. }
  rewrite Hnil in Hr. by apply not_elem_of_nil in Hr.
Qed.

Lemma group_by_namespace_dom releases :
  dom (group_by_namespace releases) =@{gset string} list_to_set (rel_Namespace <$> releases).
Proof.
  apply set_eq. intros namespace.
  rewrite elem_of_dom, elem_of_list_to_set, list_elem_of_fmap. split.
  - intros [l [-> Hne]%group_by_namespace_lookup].
    destruct (in_namespace namespace releases) as [|r l'] eqn:E; [done|].
    assert (r ∈ in_namespace namespace releases) as Hr by (rewrite E; left).
    unfold in_namespace in Hr. apply list_elem_of_filter in Hr as [<- Hr]. eauto.
  - intros (r & -> & Hr). eexists. apply group_by_namespace_lookup.
    split; [done|]. by apply in_namespace_nonempty.
Qed.

Lemma group_by_namespace_size releases :
  size (group_by_namespace releases) = length (namespaces_of releases).
Proof.
  rewrite <- size_dom, group_by_namespace_dom. unfold namespaces_of.
  rewrite <- (size_list_to_set (C:=gset string)) by apply NoDup_remove_dups.
  f_equal. apply set_eq. intros x.
  by rewrite !elem_of_list_to_set, elem_of_remove_dups.
Qed.

(** Every visiting order visits exactly the entries of the map. *)
Lemma range_map_Permutation {V} rank (m : gmap string V) :
  range_map rank m ≡ₚ map_to_list m.
Proof. apply merge_sort_Permutation. Qed.

#[local] Instance visited_before_transitive {V} rank :
  Transitive (visited_before (V:=V) rank).
Proof. intros a b c. unfold visited_before. lia. Qed.

#[local] Instance visited_before_total {V} rank : Total (visited_before (V:=V) rank).
Proof. intros a b. unfold visited_before. lia. Qed.

Lemma position_lookup keys i key :
  NoDup keys → keys !! i = Some key → position keys key = i.
Proof.
  intros Hnodup Hi. unfold position.
  destruct (list_find (λ k, k = key) keys) as [[j k]|] eqn:Hfind.
  - apply list_find_Some in Hfind as (Hj & -> & _). by eapply NoDup_lookup.
  - apply list_find_None in Hfind. rewrite Forall_forall in Hfind.
    destruct (Hfind key); [by eapply list_elem_of_lookup_2|done].
Qed.

Lemma StronglySorted_by_index {A} (R : relation A) (l : list A) :
  (∀ i j a b, l !! i = Some a → l !! j = Some b → i < j → R a b) →
  StronglySorted R l.
Proof.
  induction l as [|x l IH]; intros Hl; constructor.
  - apply IH. intros i j a b Hi Hj Hij. apply (Hl (S i) (S j)); [done..|lia].
  - apply Forall_forall. intros b [j Hj]%list_elem_of_lookup.
    apply (Hl 0 (S j)); [done..|lia].
Qed.

(** Every order of walking a map is the order of some rank: the model
    leaves out no behaviour of [range]. *)
Lemma range_map_complete {V} (m : gmap string V) (l : list (string * V)) :
  l ≡ₚ map_to_list m → range_map (position l.*1) m = l.
Proof.
  intros Hperm.
  assert (NoDup l.*1) as Hnodup.
  { rewrite Hperm. apply NoDup_fst_map_to_list. }
  assert (∀ i a, l !! i = Some a → position l.*1 a.1 = i) as Hpos.
  { intros i a Hi. apply position_lookup; [done|]. by rewrite list_lookup_fmap, Hi. }
  apply (StronglySorted_unique_strong (visited_before (position l.*1))).
  - intros x1 x2 Hx1 [j Hj]%list_elem_of_lookup H12 H21.
    rewrite range_map_Permutation, <- Hperm in Hx1.
    apply list_elem_of_lookup in Hx1 as [i Hi]. unfold visited_before in *.
    rewrite (Hpos _ _ Hi), (Hpos _ _ Hj) in H12, H21.
    assert (i = j) as -> by lia. congruence.
  - apply StronglySorted_merge_sort; apply _.
  - apply StronglySorted_by_index. intros i j a b Hi Hj Hij. unfold visited_before.
    rewrite (Hpos _ _ Hi), (Hpos _ _ Hj). lia.
  - by rewrite range_map_Permutation.
Qed.

Lemma elem_of_range_map {V} rank (m : gmap string V) k v :
  (k, v) ∈ range_map rank m ↔ m !! k = Some v.
Proof. rewrite range_map_Permutation. apply elem_of_map_to_list. Qed.

Lemma range_map_keys rank releases :
  (range_map rank (group_by_namespace releases)).*1 ≡ₚ namespaces_of releases.
Proof.
  rewrite range_map_Permutation. apply NoDup_Permutation.
  - apply NoDup_fst_map_to_list.
  - apply NoDup_remove_dups.
  - intros namespace. unfold namespaces_of. rewrite elem_of_remove_dups.
    rewrite <- (elem_of_list_to_set (C:=gset string) namespace (rel_Namespace <$> releases)).
    rewrite <- group_by_namespace_dom, elem_of_dom, list_elem_of_fmap. split.
    + intros ([k v] & -> & Hkv%elem_of_map_to_list). eauto.
    + intros [v Hv]. exists (namespace, v). split; [done|]. by apply elem_of_map_to_list.
Qed.

(** *** Resolution of one dependency *)

Lemma find_duplicates_Some rank releases :
  duplicated_in_a_namespace releases →
  ∃ namespace,
    List.find has_duplicates (range_map rank (group_by_namespace releases)) =
      Some (namespace, in_namespace namespace releases) ∧
    1 < length (in_namespace namespace releases).
Proof.
  intros (r & Hr & Hlen)%Exists_exists.
  destruct (List.find has_duplicates (range_map rank (group_by_namespace releases)))
    as [[namespace l]|] eqn:Hfind.
  - apply find_some in Hfind as [Hin Hdup].
    apply list_elem_of_In, elem_of_range_map, group_by_namespace_lookup in Hin as [-> _].
    exists namespace. split; [done|]. by apply bool_decide_eq_true in Hdup.
  - exfalso.
    assert ((rel_Namespace r, in_namespace (rel_Namespace r) releases)
              ∈ range_map rank (group_by_namespace releases)) as Hin.
    { apply elem_of_range_map, group_by_namespace_lookup.
      split; [done|]. by apply in_namespace_nonempty. }
    apply list_elem_of_In in Hin. apply (find_none _ _ Hfind) in Hin.
    by apply bool_decide_eq_false in Hin.
Qed.

Lemma find_duplicates_None rank releases :
  ¬ duplicated_in_a_namespace releases →
  List.find has_duplicates (range_map rank (group_by_namespace releases)) = None.
Proof.
  intros Hno.
  destruct (List.find has_duplicates (range_map rank (group_by_namespace releases)))
    as [[namespace l]|] eqn:Hfind; [|done].
  exfalso. apply find_some in Hfind as [Hin Hdup].
  apply list_elem_of_In, elem_of_range_map, group_by_namespace_lookup in Hin as [-> Hne].
  apply bool_decide_eq_true in Hdup. simpl in Hdup. apply Hno, Exists_exists.
  destruct (in_namespace namespace releases) as [|r l] eqn:E; [done|].
  assert (r ∈ in_namespace namespace releases) as Hr by (rewrite E; left).
  unfold in_namespace in Hr. apply list_elem_of_filter in Hr as [Hns Hr].
  exists r. split; [done|]. rewrite Hns. fold (in_namespace namespace releases).
  by rewrite E.
Qed.

(** Releases neither duplicated in a namespace nor spread over several
    are a single release. *)
Lemma single_release release releases :
  ¬ duplicated_in_a_namespace (release :: releases) →
  ¬ spread_over_namespaces (release :: releases) →
  releases = [].
Proof.
  intros Hdup Hspread. destruct releases as [|r' rs]; [done|]. exfalso.
  destruct (decide (rel_Namespace release = rel_Namespace r')) as [Heq|Hne].
  - apply Hdup. apply Exists_cons_hd. unfold in_namespace.
    rewrite filter_cons_True by done. rewrite filter_cons_True by done.
    simpl. lia.
  - apply Hspread. unfold spread_over_namespaces.
    rewrite <- group_by_namespace_size, <- size_dom, group_by_namespace_dom.
    assert ({[rel_Namespace release; rel_Namespace r']} ⊆@{gset string}
              list_to_set (rel_Namespace <$> release :: r' :: rs)) as Hsub.
    { apply union_least; apply singleton_subseteq_l, elem_of_list_to_set;
        rewrite !fmap_cons; [left | right; left]. }
    apply subseteq_size in Hsub.
    rewrite size_union in Hsub by by apply disjoint_singleton_l, not_elem_of_singleton.
    rewrite !size_singleton in Hsub. lia.
Qed.

Lemma checkSingleDependency_unfold orders dep namespacePattern t :
  checkSingleDependency world orders dep namespacePattern t =
  let lookup := FindReleasesByChartName world (dep_Name dep) namespacePattern t in
  (match lookup.1 with
   | failed e =>
     with_outcome (pending dep) StatusError [] ("failed to find releases: " +:+ e)
   | ok releases => classify orders dep (pending dep) releases
   end, lookup.2).
Proof.
  unfold checkSingleDependency, mbind, M_bind, mret, M_ret.
  by destruct (FindReleasesByChartName world (dep_Name dep) namespacePattern t) as [[]].
Qed.

(** What [classify] answers, by the shape of the releases found. *)
Lemma classify_cases orders dep releases :
  let result := classify orders dep (pending dep) releases in
  match releases with
  | [] => result = with_outcome (pending dep) StatusNotFound [] ""
  | release :: _ =>
    if decide (duplicated_in_a_namespace releases) then
      ∃ namespace,
        1 < length (in_namespace namespace releases) ∧
        result = with_outcome (pending dep) StatusMultipleFound
                   (in_namespace namespace releases)
                   ("multiple instances found in namespace " +:+ namespace)
    else if decide (spread_over_namespaces releases) then
      ∃ namespaces,
        namespaces ≡ₚ namespaces_of releases ∧
        result = with_outcome (pending dep) StatusMultipleFound releases
                   ("found in multiple namespaces: " +:+ strings_Join namespaces ", ")
    else
      releases = [release] ∧
      result =
        match isVersionCompatible (chart_Version (rel_Chart release)) (dep_Version dep) with
        | failed e =>
          with_outcome (pending dep) StatusError [release]
            ("version compatibility check failed: " +:+ e)
        | ok true => with_outcome (pending dep) StatusSatisfied [release] ""
        | ok false => with_outcome (pending dep) StatusVersionMismatch [release] ""
        end
  end.
Proof.
  destruct releases as [|release releases]; simpl; [done|].
  destruct (decide (duplicated_in_a_namespace (release :: releases))) as [Hdup|Hdup].
  - destruct (find_duplicates_Some (duplicates_order orders) _ Hdup)
      as (namespace & -> & Hlen).
    by exists namespace.
  - rewrite (find_duplicates_None _ _ Hdup), group_by_namespace_size.
    destruct (decide (spread_over_namespaces (release :: releases))) as [Hsp|Hsp].
    + rewrite bool_decide_eq_true_2 by done.
      eexists. split; [|done]. apply range_map_keys.
    + rewrite bool_decide_eq_false_2 by done.
      rewrite (single_release _ _ Hdup Hsp). split; [done|].
      destruct (isVersionCompatible _ _) as [[]|]; done.
Qed.

(** C2. Resolution classifies in a fixed order, whatever the order in which
    the grouping map is walked: a failed lookup is [Error]; no release is
    [NotFound]; then releases duplicated inside one namespace are
    [MultipleFound] by the same-namespace rule (also when they are spread
    over several namespaces as well); then releases spread over more than
    one namespace are [MultipleFound] by the cross-namespace rule; otherwise
    there is exactly one release and the constraint is evaluated, an
    evaluation error giving [Error] and a verdict [Satisfied] or
    [VersionMismatch]. *)
Theorem classification_order orders dep namespacePattern t :
  let lookup := (FindReleasesByChartName world (dep_Name dep) namespacePattern t).1 in
  let result := (checkSingleDependency world orders dep namespacePattern t).1 in
  match lookup with
  | failed e =>
    dr_Status result = StatusError ∧
    dr_Error result = "failed to find releases: " +:+ e
  | ok [] => dr_Status result = StatusNotFound
  | ok ((release :: _) as releases) =>
    if decide (duplicated_in_a_namespace releases) then
      dr_Status result = StatusMultipleFound ∧
      ∃ namespace,
        1 < length (in_namespace namespace releases) ∧
        dr_FoundReleases result = in_namespace namespace releases ∧
        dr_Error result = "multiple instances found in namespace " +:+ namespace
    else if decide (spread_over_namespaces releases) then
      dr_Status result = StatusMultipleFound ∧
      dr_FoundReleases result = releases ∧
      ∃ namespaces,
        namespaces ≡ₚ namespaces_of releases ∧
        dr_Error result =
          "found in multiple namespaces: " +:+ strings_Join namespaces ", "
    else
      releases = [release] ∧
      dr_FoundReleases result = [release] ∧
      match isVersionCompatible (chart_Version (rel_Chart release)) (dep_Version dep) with
      | failed e =>
        dr_Status result = StatusError ∧
        dr_Error result = "version compatibility check failed: " +:+ e
      | ok true => dr_Status result = StatusSatisfied
      | ok false => dr_Status result = StatusVersionMismatch
      end
  end.
Proof.
  intros lookup result. subst result lookup. rewrite checkSingleDependency_unfold.
  simpl.
  destruct (FindReleasesByChartName world (dep_Name dep) namespacePattern t).1
    as [releases|e]; simpl; [|done].
  pose proof (classify_cases orders dep releases) as Hc. simpl in Hc.
  destruct releases as [|release releases]; [by rewrite Hc|].
  destruct (decide (duplicated_in_a_namespace (release :: releases))).
  { destruct Hc as (namespace & Hlen & ->). split; [done|]. by exists namespace. }
  destruct (decide (spread_over_namespaces (release :: releases))).
  { destruct Hc as (namespaces & Hperm & ->). split; [done|]. split; [done|].
    by exists namespaces. }
  destruct Hc as [Heq ->]. split; [done|].
  destruct (isVersionCompatible _ _) as [[]|]; done.
Qed.

Lemma checkSingleDependency_resolved orders dep namespacePattern t :
  resolved (checkSingleDependency world orders dep namespacePattern t).1.
Proof.
  rewrite checkSingleDependency_unfold. simpl.
  destruct (FindReleasesByChartName world (dep_Name dep) namespacePattern t).1
    as [releases|e]; simpl.
  2: { split; [outcome 4|]. done. }
  pose proof (classify_cases orders dep releases) as Hc. simpl in Hc.
  destruct releases as [|release releases].
  { rewrite Hc. split; [outcome 1|]. done. }
  destruct (decide (duplicated_in_a_namespace (release :: releases))).
  { destruct Hc as (namespace & Hlen & ->). split; [outcome 3|]. done. }
  destruct (decide (spread_over_namespaces (release :: releases))) as [Hsp|].
  { destruct Hc as (namespaces & Hperm & ->). split; [outcome 3|].
    split; [done|]. intros _. simpl.
    unfold spread_over_namespaces, namespaces_of in Hsp.
    assert (remove_dups (rel_Namespace <$> release :: releases)
              ⊆+ rel_Namespace <$> release :: releases) as Hle.
    { apply NoDup_submseteq; [apply NoDup_remove_dups|].
      intros x. by rewrite elem_of_remove_dups. }
    apply submseteq_length in Hle. rewrite length_fmap in Hle. simpl in *. lia. }
  destruct Hc as [Heq ->].
  destruct (isVersionCompatible _ _) as [[]|]; simpl.
  - split; [outcome 0|]. done.
  - split; [outcome 2|]. done.
  - split; [outcome 4|]. done.
Qed.

Lemma checkSingleDependency_names orders dep namespacePattern t :
  let d := (checkSingleDependency world orders dep namespacePattern t).1 in
  dr_Name d = dep_Name dep ∧ dr_RequiredVersion d = dep_Version dep.
Proof.
  rewrite checkSingleDependency_unfold. simpl.
  destruct (FindReleasesByChartName world (dep_Name dep) namespacePattern t).1
    as [releases|e]; simpl; [|done].
  unfold classify. destruct releases; [done|].
  repeat case_match; done.
Qed.

(** [createValidationError] never indexes out of range on a resolved result. *)
Lemma createValidationError_total d namespacePattern :
  resolved d → is_Some (createValidationError d namespacePattern).
Proof.
  intros (_ & Hmis & Hmul). unfold createValidationError.
  repeat case_bool_decide; try done.
  - destruct (dr_FoundReleases d); [by specialize (Hmis ltac:(done))|done].
  - destruct (strings_Contains _ _); [done|].
    destruct (dr_FoundReleases d); [|done].
    specialize (Hmul ltac:(done)). simpl in Hmul. lia.
Qed.

(** *** The loop of [Check] *)

Lemma resolve_each_cons orders i dep rest namespacePattern t :
  resolve_each world orders i (dep :: rest) namespacePattern t =
  let first := checkSingleDependency world (orders i) dep namespacePattern t in
  let others := resolve_each world orders (S i) rest namespacePattern first.2 in
  (first.1 :: others.1, others.2).
Proof.
  simpl. unfold mbind, M_bind, mret, M_ret.
  destruct (checkSingleDependency world (orders i) dep namespacePattern t) as [d t1].
  simpl. by destruct (resolve_each world orders (S i) rest namespacePattern t1).
Qed.

Lemma resolve_each_resolved orders deps namespacePattern : ∀ i t,
  Forall resolved (resolve_each world orders i deps namespacePattern t).1.
Proof.
  induction deps as [|dep rest IH]; intros i t; [by constructor|].
  rewrite resolve_each_cons. simpl. constructor; [|apply IH].
  apply checkSingleDependency_resolved.
Qed.

Lemma resolve_each_names orders deps namespacePattern : ∀ i t,
  dr_Name <$> (resolve_each world orders i deps namespacePattern t).1 =
  dep_Name <$> deps.
Proof.
  induction deps as [|dep rest IH]; intros i t; [done|].
  rewrite resolve_each_cons. simpl. rewrite IH. f_equal.
  apply checkSingleDependency_names.
Qed.

(** The loop returns (it does not panic) and folds the results of the
    successive [checkSingleDependency] calls into the report. *)
Lemma check_each_run orders deps namespacePattern : ∀ i result t,
  let run := resolve_each world orders i deps namespacePattern t in
  ∃ result' errors,
    check_each world orders i deps namespacePattern result t = (Some result', run.2) ∧
    Forall2 (λ d e, createValidationError d namespacePattern = Some e)
            (failures run.1) errors ∧
    Dependencies result' = Dependencies result ++ run.1 ∧
    Errors result' = Errors result ++ errors ∧
    Summary result' = foldl count_status (Summary result) (dr_Status <$> run.1) ∧
    Success result' = foldl success_after (Success result) (dr_Status <$> run.1) ∧
    MatchedNamespaces result' = MatchedNamespaces result.
Proof.
  induction deps as [|dep rest IH]; intros i result t run.
  { exists result, []. subst run. simpl. rewrite !app_nil_r.
    repeat split; done. }
  subst run. rewrite resolve_each_cons. simpl check_each.
  unfold mbind, M_bind at 1.
  pose proof (checkSingleDependency_resolved (orders i) dep namespacePattern t) as Hres.
  destruct (checkSingleDependency world (orders i) dep namespacePattern t) as [d t1].
  simpl in Hres |- *. unfold failures. rewrite filter_cons.
  case_bool_decide as Hsat.
  - destruct (createValidationError_total d namespacePattern Hres) as [e He].
    rewrite He, decide_True by done.
    destruct (IH (S i) (add_error (record_result result d) e) t1)
      as (result' & errors & -> & Herrs & HD & HE & HS & HSu & HM).
    exists result', (e :: errors). simpl in *.
    rewrite HD, HE, HS, HSu, HM, <- !app_assoc. repeat split; try done.
    by constructor.
  - rewrite decide_False by (by intros Hn; apply Hn).
    destruct (IH (S i) (record_result result d) t1)
      as (result' & errors & -> & Herrs & HD & HE & HS & HSu & HM).
    exists result', errors. simpl in *.
    rewrite HD, HE, HS, HSu, HM, <- !app_assoc. repeat split; done.
Qed.

(** *** The runs of [Check] *)

Lemma getMatchingNamespaces_unfold pattern t :
  getMatchingNamespaces world pattern t =
  (match kube_Namespaces_List world t with
   | failed e => failed ("failed to list namespaces: " +:+ e)
   | ok items =>
     if bool_decide (pattern = "") then
       ok (List.filter (λ namespace, negb (IsSystemNamespace namespace)) items)
     else
       match regexp_Compile pattern with
       | failed e => failed ("invalid namespace pattern '" +:+ pattern +:+ "': " +:+ e)
       | ok regex => ok (List.filter (regexp_MatchString regex) items)
       end
   end, t ++ [ListNamespaces]).
Proof. done. Qed.

(** [Check] always returns, with a nil error, in one of four ways: the
    chart path is invalid; the declaration does not parse or validate; the
    namespaces cannot be enumerated; or the dependencies are resolved one
    after the other and folded into the report. *)
Lemma Check_run orders config t :
  let namespacePattern := NamespacePattern config in
  (∃ msg,
     ValidateChartPath world (ChartPath config) = Some msg ∧
     Check world orders config t =
       (Some (fail_with empty_result
                (NewValidationError ErrorTypeInvalidDependencyFile "" msg
                   (at_line (ChartPath config) 0)), None), t)) ∨
  (∃ err e,
     ValidateChartPath world (ChartPath config) = None ∧
     ParseDependencies world (ChartPath config) = failed err ∧
     e = match err with
         | AsValidationError validationErr => validationErr
         | PlainError msg =>
           NewValidationError ErrorTypeInvalidDependencyFile "" msg no_details
         end ∧
     Check world orders config t = (Some (fail_with empty_result e, None), t)) ∨
  (∃ deps msg,
     ValidateChartPath world (ChartPath config) = None ∧
     ParseDependencies world (ChartPath config) = ok deps ∧
     (getMatchedNamespaces world namespacePattern t).1 = failed msg ∧
     Check world orders config t =
       (Some (fail_with empty_result
                (NewValidationError ErrorTypeHelmClientError ""
                   ("failed to get matching namespaces: " +:+ msg) no_details), None),
        t ++ [ListNamespaces])) ∨
  (∃ deps namespaces report errors,
     let run := resolve_each world orders 0 (Dependencies_of deps) namespacePattern
                  (t ++ [ListNamespaces]) in
     ValidateChartPath world (ChartPath config) = None ∧
     ParseDependencies world (ChartPath config) = ok deps ∧
     (getMatchedNamespaces world namespacePattern t).1 = ok namespaces ∧
     Check world orders config t = (Some (report, None), run.2) ∧
     Dependencies report = run.1 ∧
     Forall2 (λ d e, createValidationError d namespacePattern = Some e)
             (failures run.1) errors ∧
     Errors report = errors ∧
     Summary report = foldl count_status no_summary (dr_Status <$> run.1) ∧
     Success report = foldl success_after true (dr_Status <$> run.1) ∧
     MatchedNamespaces report = namespaces).
Proof.
  intros namespacePattern. unfold Check.
  destruct (ValidateChartPath world (ChartPath config)) as [msg|] eqn:Hpath.
  { left. by exists msg. }
  right. destruct (ParseDependencies world (ChartPath config)) as [deps|err] eqn:Hparse.
  2: { left. exists err. destruct err; eexists; done. }
  right. unfold getMatchedNamespaces, GetMatchingNamespaces, mbind, M_bind.
  fold namespacePattern. rewrite getMatchingNamespaces_unfold. simpl.
  destruct (match kube_Namespaces_List world t with ok _ => _ | failed _ => _ end)
    as [namespaces|msg] eqn:Hns.
  2: { left. by exists deps, msg. }
  right. exists deps, namespaces.
  destruct (check_each_run orders (Dependencies_of deps) namespacePattern 0
              (set_MatchedNamespaces empty_result namespaces) (t ++ [ListNamespaces]))
    as (report & errors & Hloop & Herrs & HD & HE & HS & HSu & HM).
  exists report, errors. simpl in *. rewrite HD, HE, HS, HSu, HM.
  repeat split; try done.
  destruct (Dependencies_of deps) as [|d l] eqn:Hdeps.
  - simpl in *. by injection Hloop as ->.
  - rewrite bool_decide_eq_false_2 by done. by rewrite Hloop.
Qed.

(** *** Success and failures *)

Lemma outcomes_cases status :
  status ∈ outcomes ↔
  status = StatusSatisfied ∨ status = StatusNotFound ∨
  status = StatusVersionMismatch ∨ status = StatusMultipleFound ∨
  status = StatusError.
Proof.
  unfold outcomes. rewrite !elem_of_cons, elem_of_nil. tauto.
Qed.

Lemma success_after_true success status :
  status ∈ outcomes →
  success_after success status = true ↔ success = true ∧ status = StatusSatisfied.
Proof.
  intros Hin%outcomes_cases. unfold success_after.
  repeat case_bool_decide; intuition congruence.
Qed.

Lemma success_foldl statuses : ∀ success,
  Forall (λ status, status ∈ outcomes) statuses →
  foldl success_after success statuses = true ↔
  success = true ∧ Forall (λ status, status = StatusSatisfied) statuses.
Proof.
  induction statuses as [|status rest IH]; intros success Hall; simpl.
  - split; [by intros ->|by intros [-> _]].
  - apply Forall_cons in Hall as [Hin Hall].
    rewrite IH, success_after_true, Forall_cons by done. tauto.
Qed.

Lemma resolved_statuses results :
  Forall resolved results →
  Forall (λ status, status ∈ outcomes) (dr_Status <$> results).
Proof.
  intros Hall. apply Forall_fmap. eapply Forall_impl; [done|]. by intros d [? _].
Qed.

Lemma createValidationError_chart d namespacePattern e :
  createValidationError d namespacePattern = Some e → ve_Chart e = dr_Name d.
Proof.
  unfold createValidationError. intros Heq.
  repeat case_match; simplify_option_eq; done.
Qed.

Lemma failures_all_satisfied results :
  failures results = [] ↔ Forall (λ d, dr_Status d = StatusSatisfied) results.
Proof.
  unfold failures. induction results as [|d rest IH]; [done|].
  rewrite filter_cons, Forall_cons. case_decide as Hd.
  - split; [done|]. by intros [? _].
  - rewrite IH. tauto.
Qed.

(** C1, as the code has it. [Check] returns a report whose [Success] is
    true exactly when the check got as far as resolving dependencies (valid
    chart path, valid declaration, namespaces enumerated) and every
    [DependencyResult] is [Satisfied]; equivalently, exactly when the
    report holds no error.  A check aborted before resolution reports
    [Success = false] with no result at all. *)
Theorem success_iff_resolved_and_satisfied orders config t :
  ∃ report t',
    Check world orders config t = (Some (report, None), t') ∧
    (Success report = true ↔
       reaches_resolution world config t ∧
       Forall (λ d, dr_Status d = StatusSatisfied) (Dependencies report)) ∧
    (Success report = true ↔ Errors report = []) ∧
    (¬ reaches_resolution world config t →
       Success report = false ∧ Dependencies report = []).
Proof.
  destruct (Check_run orders config t)
    as [(msg & Hpath & ->)|[(err & e & Hpath & Hparse & He & ->)|
        [(deps & msg & Hpath & Hparse & Hns & ->)|
         (deps & namespaces & report & errors & Hpath & Hparse & Hns & -> & HD & Herrs
            & HE & HS & HSu & HM)]]];
    eexists _, _; (split; [done|]); simpl.
  - split; [|done]. split; [done|]. intros [(Hp & _ & _) _]. congruence.
  - split; [|done]. split; [done|]. intros [(_ & [deps Hd] & _) _]. congruence.
  - split; [|done]. split; [done|]. intros [(_ & _ & [ns Hn]) _]. simpl in *. congruence.
  - assert (Success report = true ↔
              Forall (λ d, dr_Status d = StatusSatisfied) (Dependencies report)) as Hiff.
    { rewrite HSu, HD, success_foldl
        by apply resolved_statuses, resolve_each_resolved.
      rewrite Forall_fmap. tauto. }
    split; [|split].
    + rewrite Hiff. unfold reaches_resolution. split; [|tauto]. eauto 8.
    + rewrite Hiff, HE, HD, <- failures_all_satisfied. split.
      * intros Hnil. rewrite Hnil in Herrs. by apply Forall2_nil_inv_l in Herrs.
      * intros ->. by apply Forall2_nil_inv_r in Herrs.
    + intros []. unfold reaches_resolution. eauto 8.
Qed.

(** *** The summary *)

Lemma wrap64_in_range z : (- 2 ^ 63 ≤ z < 2 ^ 63)%Z → wrap64 z = z.
Proof. intros Hz. unfold wrap64. rewrite Z.mod_small; lia. Qed.

Lemma wrap64_add_l a b : wrap64 (wrap64 a + b) = wrap64 (a + b).
Proof.
  unfold wrap64. f_equal.
  replace ((a + 2 ^ 63) `mod` 2 ^ 64 - 2 ^ 63 + b + 2 ^ 63)%Z
    with ((a + 2 ^ 63) `mod` 2 ^ 64 + b)%Z by lia.
  rewrite Zplus_mod_idemp_l. f_equal. lia.
Qed.

Lemma wrap64_multiple z : ∃ k, wrap64 z = (z + 2 ^ 64 * k)%Z.
Proof.
  exists (- ((z + 2 ^ 63) `div` 2 ^ 64))%Z. unfold wrap64.
  rewrite Z.mod_eq by lia. lia.
Qed.

Lemma wrap64_shift z k : wrap64 (z + 2 ^ 64 * k) = wrap64 z.
Proof.
  unfold wrap64. f_equal.
  replace (z + 2 ^ 64 * k + 2 ^ 63)%Z with (z + 2 ^ 63 + k * 2 ^ 64)%Z by lia.
  apply Z_mod_plus_full.
Qed.

Lemma incr_wrap64 a : incr (wrap64 a) = wrap64 (a + 1).
Proof. apply wrap64_add_l. Qed.

(** The summary whose counters are the given numbers, as Go [int]s. *)
Lemma count_status_wrapped total sat nf mis mul err status :
  count_status
    {| s_Total := wrap64 total; s_Satisfied := wrap64 sat; s_NotFound := wrap64 nf;
       s_Mismatched := wrap64 mis; s_Multiple := wrap64 mul; s_Errors := wrap64 err |}
    status =
  {| s_Total := wrap64 (total + 1);
     s_Satisfied := wrap64 (sat + if decide (status = StatusSatisfied) then 1 else 0);
     s_NotFound := wrap64 (nf + if decide (status = StatusNotFound) then 1 else 0);
     s_Mismatched :=
       wrap64 (mis + if decide (status = StatusVersionMismatch) then 1 else 0);
     s_Multiple := wrap64 (mul + if decide (status = StatusMultipleFound) then 1 else 0);
     s_Errors := wrap64 (err + if decide (status = StatusError) then 1 else 0) |}.
Proof.
  unfold count_status. simpl. rewrite !incr_wrap64.
  repeat case_bool_decide; subst; repeat case_decide; try done;
    by rewrite ?Z.add_0_r.
Qed.

Lemma count_of_cons status d results :
  count_of status (d :: results) =
  ((if decide (dr_Status d = status) then 1 else 0) + count_of status results)%Z.
Proof.
  unfold count_of. rewrite filter_cons. case_decide; simpl; lia.
Qed.

Lemma count_status_foldl results : ∀ total sat nf mis mul err,
  foldl count_status
    {| s_Total := wrap64 total; s_Satisfied := wrap64 sat; s_NotFound := wrap64 nf;
       s_Mismatched := wrap64 mis; s_Multiple := wrap64 mul; s_Errors := wrap64 err |}
    (dr_Status <$> results) =
  {| s_Total := wrap64 (total + Z.of_nat (length results));
     s_Satisfied := wrap64 (sat + count_of StatusSatisfied results);
     s_NotFound := wrap64 (nf + count_of StatusNotFound results);
     s_Mismatched := wrap64 (mis + count_of StatusVersionMismatch results);
     s_Multiple := wrap64 (mul + count_of StatusMultipleFound results);
     s_Errors := wrap64 (err + count_of StatusError results) |}.
Proof.
  induction results as [|d rest IH]; intros.
  - unfold count_of. simpl. by rewrite !Z.add_0_r.
  - rewrite fmap_cons. simpl foldl.
    rewrite count_status_wrapped, IH, !count_of_cons, length_cons, Nat2Z.inj_succ.
    f_equal; f_equal; lia.
Qed.

Lemma count_of_bounds status results :
  (0 ≤ count_of status results ≤ Z.of_nat (length results))%Z.
Proof.
  unfold count_of. pose proof (length_filter (λ d, dr_Status d = status) results). lia.
Qed.

(** Each result with one of the five outcomes is counted once. *)
Lemma count_of_total results :
  Forall (λ d, dr_Status d ∈ outcomes) results →
  (count_of StatusSatisfied results + count_of StatusNotFound results +
   count_of StatusVersionMismatch results + count_of StatusMultipleFound results +
   count_of StatusError results)%Z = Z.of_nat (length results).
Proof.
  induction 1 as [|d rest Hd Hall IH]; [done|].
  rewrite !count_of_cons. apply outcomes_cases in Hd.
  destruct Hd as [Hd|[Hd|[Hd|[Hd|Hd]]]]; rewrite Hd;
    repeat case_decide; try done; simpl length; lia.
Qed.

(** C7. In the report [Check] returns, [Summary.Total] is the number of
    [DependencyResult] entries and the five outcome counters add up to it
    (the counters are Go [int]s; a slice has fewer than [2^63] entries);
    each counter is the number of results with its outcome, and every
    result has exactly one of the five pairwise distinct outcomes. *)
Theorem summary_counts_results orders config t :
  ∃ report t',
    Check world orders config t = (Some (report, None), t') ∧
    let s := Summary report in
    let results := Dependencies report in
    s_Total s = wrap64 (Z.of_nat (length results)) ∧
    wrap64 (s_Satisfied s + s_NotFound s + s_Mismatched s + s_Multiple s + s_Errors s)
      = s_Total s ∧
    ((Z.of_nat (length results) < 2 ^ 63)%Z →
       s_Total s = Z.of_nat (length results) ∧
       (s_Satisfied s + s_NotFound s + s_Mismatched s + s_Multiple s + s_Errors s)%Z
         = s_Total s ∧
       s_Satisfied s = count_of StatusSatisfied results ∧
       s_NotFound s = count_of StatusNotFound results ∧
       s_Mismatched s = count_of StatusVersionMismatch results ∧
       s_Multiple s = count_of StatusMultipleFound results ∧
       s_Errors s = count_of StatusError results) ∧
    Forall (λ d, dr_Status d ∈ outcomes) results ∧
    NoDup outcomes.
Proof.
  assert (NoDup outcomes) as Hnodup.
  { apply (bool_decide_unpack _). by vm_compute. }
  destruct (Check_run orders config t)
    as [(msg & Hpath & ->)|[(err & e & Hpath & Hparse & He & ->)|
        [(deps & msg & Hpath & Hparse & Hns & ->)|
         (deps & namespaces & report & errors & Hpath & Hparse & Hns & -> & HD & Herrs
            & HE & HS & HSu & HM)]]];
    eexists _, _; (split; [done|]).
  1-3: by repeat split.
  cbv zeta. rewrite HD.
  set (results := (resolve_each world orders 0 (Dependencies_of deps)
                     (NamespacePattern config) (t ++ [ListNamespaces])).1) in *.
  assert (Forall (λ d, dr_Status d ∈ outcomes) results) as Hall.
  { eapply Forall_impl; [apply resolve_each_resolved|]. by intros d [? _]. }
  pose proof (count_status_foldl results 0 0 0 0 0 0) as Hfold.
  change (wrap64 0) with 0%Z in Hfold. fold no_summary in Hfold.
  rewrite Hfold in HS. rewrite HS. simpl. rewrite !Z.add_0_l.
  pose proof (count_of_total results Hall) as Hsum.
  split; [done|]. split.
  { rewrite <- Hsum.
    destruct (wrap64_multiple (count_of StatusSatisfied results)) as [k1 ->].
    destruct (wrap64_multiple (count_of StatusNotFound results)) as [k2 ->].
    destruct (wrap64_multiple (count_of StatusVersionMismatch results)) as [k3 ->].
    destruct (wrap64_multiple (count_of StatusMultipleFound results)) as [k4 ->].
    destruct (wrap64_multiple (count_of StatusError results)) as [k5 ->].
    etrans; [|apply (wrap64_shift _ (k1 + k2 + k3 + k4 + k5))]. f_equal. lia. }
  split; [|done]. intros Hlen.
  pose proof (count_of_bounds StatusSatisfied results).
  pose proof (count_of_bounds StatusNotFound results).
  pose proof (count_of_bounds StatusVersionMismatch results).
  pose proof (count_of_bounds StatusMultipleFound results).
  pose proof (count_of_bounds StatusError results).
  rewrite !wrap64_in_range by lia. by rewrite Hsum.
Qed.

(** *** Validation of the declaration *)

Lemma validateVersionConstraint_None constraint :
  strings_TrimSpace constraint ≠ "" →
  validateVersionConstraint constraint = None ↔
  ∀ e, semver_NewConstraint constraint ≠ failed e.
Proof.
  intros Hne. unfold validateVersionConstraint.
  rewrite bool_decide_eq_false_2 by done.
  destruct (semver_NewConstraint constraint) as [c|e]; split; try done.
  intros Hall. by destruct (Hall e).
Qed.

Lemma seen_are_insert seenNames earlier dep :
  seen_are seenNames earlier →
  seen_are (<[dep_Name dep := true]> seenNames) (earlier ++ [dep]).
Proof.
  intros Hseen name. specialize (Hseen name).
  rewrite fmap_app, elem_of_app, lookup_insert. simpl.
  rewrite list_elem_of_singleton. case_decide; simpl; [|split]; intuition congruence.
Qed.

Lemma validate_from_spec filePath deps : ∀ i seenNames earlier,
  seen_are seenNames earlier →
  match validate_from deps i seenNames filePath with
  | None =>
    ∀ k dep, deps !! k = Some dep → ¬ invalid_entry (earlier ++ take k deps) dep
  | Some e =>
    ∃ k dep,
      deps !! k = Some dep ∧
      invalid_entry (earlier ++ take k deps) dep ∧
      (∀ j dep', j < k → deps !! j = Some dep' →
                 ¬ invalid_entry (earlier ++ take j deps) dep') ∧
      ve_Type e =
        (if decide (structural_problem (earlier ++ take k deps) dep)
         then ErrorTypeInvalidDependencyFile else ErrorTypeInvalidVersionConstraint) ∧
      ed_File (ve_Details e) = filePath ∧
      ed_Line (ve_Details e) = wrap64 (Z.of_nat (i + k) + 2)
  end.
Proof.
  induction deps as [|dep rest IH]; intros i seenNames earlier Hseen; [done|].
  simpl validate_from.
  case_bool_decide as Hname.
  { exists 0, dep. rewrite app_nil_r, Nat.add_0_r. simpl.
    assert (structural_problem earlier dep) as Hs by by left.
    rewrite decide_True by done. repeat split; try done; [by left | lia]. }
  case_bool_decide as Hversion.
  { exists 0, dep. rewrite app_nil_r, Nat.add_0_r. simpl.
    assert (structural_problem earlier dep) as Hs by (right; by left).
    rewrite decide_True by done. repeat split; try done; [by left | lia]. }
  destruct (default false (seenNames !! dep_Name dep)) eqn:Hdup.
  { exists 0, dep. rewrite app_nil_r, Nat.add_0_r. simpl.
    assert (structural_problem earlier dep) as Hs by (right; right; by apply Hseen).
    rewrite decide_True by done. repeat split; try done; [by left | lia]. }
  assert (¬ structural_problem earlier dep) as Hnot.
  { intros [?|[?|Hin]]; [done..|]. apply Hseen in Hin. congruence. }
  destruct (validateVersionConstraint (dep_Version dep)) as [msg|] eqn:Hcons.
  { exists 0, dep. rewrite app_nil_r, Nat.add_0_r. simpl.
    rewrite decide_False by done. repeat split; try done; [|lia].
    right. destruct (semver_NewConstraint (dep_Version dep)) as [c|e] eqn:Hc; [|eauto].
    exfalso. unfold validateVersionConstraint in Hcons.
    rewrite bool_decide_eq_false_2, Hc in Hcons by done. done. }
  pose proof (proj1 (validateVersionConstraint_None _ Hversion) Hcons) as Hparses.
  assert (¬ invalid_entry earlier dep) as Hvalid.
  { intros [?|[e He]]; [done|]. by apply (Hparses e). }
  specialize (IH (S i) _ _ (seen_are_insert _ _ dep Hseen)).
  destruct (validate_from rest (S i) _ filePath) as [e|].
  - destruct IH as (k & dep' & Hk & Hinv & Hfirst & Htype & Hfile & Hline).
    exists (S k), dep'. simpl. rewrite <- app_assoc in Hinv, Htype. simpl in *.
    repeat split; try done.
    + intros [|j] dep'' Hj Hlook; simpl in *.
      * injection Hlook as <-. by rewrite app_nil_r.
      * rewrite cons_middle, app_assoc. apply Hfirst; [lia|done].
    + rewrite Hline. do 2 f_equal. lia.
  - intros [|k] dep' Hlook; simpl in *.
    + injection Hlook as <-. by rewrite app_nil_r.
    + rewrite cons_middle, app_assoc. by apply IH.
Qed.

Lemma validateDependencies_spec deps filePath :
  match validateDependencies deps filePath with
  | None =>
    ∀ k dep, Dependencies_of deps !! k = Some dep →
             ¬ invalid_entry (take k (Dependencies_of deps)) dep
  | Some e =>
    ∃ k dep,
      first_invalid (Dependencies_of deps) k dep ∧
      ve_Type e =
        (if decide (structural_problem (take k (Dependencies_of deps)) dep)
         then ErrorTypeInvalidDependencyFile else ErrorTypeInvalidVersionConstraint) ∧
      ed_File (ve_Details e) = filePath ∧
      ed_Line (ve_Details e) = wrap64 (Z.of_nat k + 2)
  end.
Proof.
  unfold validateDependencies.
  assert (seen_are ∅ []) as Hseen.
  { intros name. rewrite lookup_empty. simpl. split; [done|]. by intros ?%elem_of_nil. }
  pose proof (validate_from_spec filePath (Dependencies_of deps) 0 ∅ [] Hseen) as Hspec.
  destruct (validate_from _ _ _ _) as [e|]; simpl in *; [|done].
  destruct Hspec as (k & dep & Hk & Hinv & Hfirst & Htype & Hfile & Hline).
  exists k, dep. by repeat split.
Qed.

(** A validated declaration has pairwise distinct names. *)
Lemma validated_names_NoDup deps filePath :
  validateDependencies deps filePath = None →
  NoDup (dep_Name <$> Dependencies_of deps).
Proof.
  intros Hval. pose proof (validateDependencies_spec deps filePath) as Hspec.
  rewrite Hval in Hspec. apply NoDup_alt. intros i j name Hi Hj.
  apply list_lookup_fmap_Some in Hi as (di & -> & Hi).
  apply list_lookup_fmap_Some in Hj as (dj & Hname & Hj).
  destruct (decide (i = j)) as [|Hne]; [done|]. exfalso.
  assert (∀ a b da db, a < b → Dependencies_of deps !! a = Some da →
            Dependencies_of deps !! b = Some db → dep_Name da ≠ dep_Name db) as Hlt.
  { intros a b da db Hab Ha Hb Heq. apply (Hspec b db Hb). left. right. right.
    rewrite <- Heq. apply list_elem_of_fmap. exists da. split; [done|].
    apply list_elem_of_lookup. exists a. rewrite lookup_take_lt by done. done. }
  destruct (decide (i < j)).
  - by eapply (Hlt i j di dj).
  - eapply (Hlt j i dj di); [lia|done..].
Qed.

(** C9. When validation of the declaration fails (some entry has a blank
    name, a blank constraint, a name already used by an earlier entry, or a
    constraint that does not parse), the check aborts before any
    resolution: no query is made, and the report has [Success = false], no
    [DependencyResult] and a single error.  The error is about the first
    rejected entry in declaration order: [InvalidDependencyFile] for a
    structural problem (for a repeated name, the later entry is the one
    rejected), [InvalidVersionConstraint] otherwise. *)
Theorem validation_failure_aborts orders config t data deps k dep :
  ValidateChartPath world (ChartPath config) = None →
  os_ReadFile world (filepath_Join (ChartPath config) "dependencies.yaml") = ok data →
  yaml_Unmarshal data = ok deps →
  Dependencies_of deps !! k = Some dep →
  invalid_entry (take k (Dependencies_of deps)) dep →
  ∃ e k0 dep0,
    Check world orders config t = (Some (aborted e, None), t) ∧
    first_invalid (Dependencies_of deps) k0 dep0 ∧
    ve_Type e =
      (if decide (structural_problem (take k0 (Dependencies_of deps)) dep0)
       then ErrorTypeInvalidDependencyFile else ErrorTypeInvalidVersionConstraint) ∧
    ed_Line (ve_Details e) = wrap64 (Z.of_nat k0 + 2).
Proof.
  intros Hpath Hread Hyaml Hk Hinvalid.
  pose proof (validateDependencies_spec deps
                (filepath_Join (ChartPath config) "dependencies.yaml")) as Hspec.
  destruct (validateDependencies deps _) as [e|] eqn:Hval;
    [|by destruct (Hspec k dep Hk)].
  destruct Hspec as (k0 & dep0 & Hfirst & Htype & _ & Hline).
  exists e, k0, dep0. split; [|done].
  unfold Check, ParseDependencies. by rewrite Hpath, Hread, Hyaml, Hval.
Qed.

(** *** The queries made *)

Lemma getReleasesInNamespace_trace namespace t :
  (getReleasesInNamespace world namespace t).2 = t ++ [ListReleases namespace].
Proof. done. Qed.

Lemma GetReleases_in_trace namespaces : ∀ allReleases t,
  (GetReleases_in world namespaces allReleases t).2 = t ++ (ListReleases <$> namespaces).
Proof.
  induction namespaces as [|namespace rest IH]; intros allReleases t; simpl.
  - by rewrite app_nil_r.
  - unfold mbind, M_bind.
    destruct (getReleasesInNamespace world namespace t) as [r t1] eqn:Hr.
    pose proof (getReleasesInNamespace_trace namespace t) as Ht. rewrite Hr in Ht.
    simpl in Ht. subst t1. destruct r; rewrite IH, <- app_assoc; done.
Qed.

(** A lookup enumerates and filters the namespaces again, then lists the
    releases of each namespace it kept. *)
Lemma checkSingleDependency_trace orders dep namespacePattern t :
  (checkSingleDependency world orders dep namespacePattern t).2 =
  t ++ ListNamespaces ::
    match (getMatchingNamespaces world namespacePattern t).1 with
    | ok namespaces => ListReleases <$> namespaces
    | failed _ => []
    end.
Proof.
  rewrite checkSingleDependency_unfold. simpl.
  unfold FindReleasesByChartName, GetReleases, mbind, M_bind.
  rewrite getMatchingNamespaces_unfold. simpl.
  destruct (match kube_Namespaces_List world t with ok _ => _ | failed _ => _ end)
    as [namespaces|e]; simpl; [|done].
  pose proof (GetReleases_in_trace namespaces [] (t ++ [ListNamespaces])) as Ht.
  destruct (GetReleases_in world namespaces [] (t ++ [ListNamespaces])) as [all t1].
  simpl in *. by rewrite Ht, <- app_assoc.
Qed.





(** C4, as the code has it. With a valid chart path and an empty validated
    declaration, [Check] enumerates the namespaces once (for the report)
    and lists no release.  If the enumeration succeeds, the report has
    [Success = true], no result, no error and an all-zero summary; if it
    fails, the report has [Success = false] and a single
    [helm_client_error]. *)
Theorem empty_declaration_report orders config t deps :
  ValidateChartPath world (ChartPath config) = None →
  ParseDependencies world (ChartPath config) = ok deps →
  Dependencies_of deps = [] →
  ∃ report,
    Check world orders config t = (Some (report, None), t ++ [ListNamespaces]) ∧
    Dependencies report = [] ∧
    Summary report = no_summary ∧
    match (getMatchedNamespaces world (NamespacePattern config) t).1 with
    | ok namespaces =>
      Success report = true ∧ Errors report = [] ∧
      MatchedNamespaces report = namespaces
    | failed msg =>
      Success report = false ∧
      ∃ e, Errors report = [e] ∧ ve_Type e = ErrorTypeHelmClientError
    end.
Proof.
  intros Hpath Hparse Hempty.
  destruct (Check_run orders config t)
    as [(msg & Hpath' & _)|[(err & e & _ & Hparse' & _)|
        [(deps' & msg & _ & Hparse' & Hns & ->)|
         (deps' & namespaces & report & errors & _ & Hparse' & Hns & -> & HD & Herrs
            & HE & HS & HSu & HM)]]]; [congruence..| |].
  { eexists. split; [done|]. rewrite Hns. simpl. eauto 6. }
  assert (deps' = deps) as -> by congruence.
  rewrite Hempty in *. simpl in *. exists report. rewrite Hns.
  apply Forall2_nil_inv_l in Herrs. subst errors. by repeat split.
Qed.

(** *** The namespace filter *)

Lemma IsSystemNamespace_spec namespace :
  IsSystemNamespace namespace = true ↔
  namespace ∈ ["kube-system"; "kube-public"; "kube-node-lease"].
Proof.
  unfold IsSystemNamespace, systemNamespaces.
  rewrite !lookup_insert, lookup_empty, !elem_of_cons, elem_of_nil.
  repeat case_decide; subst; simpl; intuition congruence.
Qed.

Lemma regexp_MatchString_spec re s :
  regexp_MatchString re s = true ↔
  ∃ i j, i ≤ j ≤ String.length s ∧ regexp_match_at re s i j = true.
Proof.
  unfold regexp_MatchString. rewrite existsb_exists. split.
  - intros (i & Hi%in_seq & (j & Hj%in_seq & Hm)%existsb_exists).
    exists i, j. split; [lia|done].
  - intros (i & j & Hij & Hm). exists i. split; [apply in_seq; lia|].
    apply existsb_exists. exists j. split; [apply in_seq; lia|done].
Qed.

(** C6. Of the namespaces the cluster lists, the filter returns: for the
    empty pattern, exactly those outside the system set [kube-system],
    [kube-public], [kube-node-lease] (so [default] is returned); for a
    non-empty pattern that compiles, exactly those whose name contains a
    match of the pattern (search, not full match), system namespaces
    included; for a pattern that does not compile, an error, which [Check]
    reports as one top-level [helm_client_error] with no
    [DependencyResult]. *)
Theorem namespace_filter_selection pattern t items :
  kube_Namespaces_List world t = ok items →
  let result := (getMatchingNamespaces world pattern t).1 in
  (pattern = "" →
     result = ok (List.filter (λ namespace, negb (IsSystemNamespace namespace)) items) ∧
     IsSystemNamespace "default" = false ∧
     ∀ namespace,
       IsSystemNamespace namespace = true ↔
       namespace ∈ ["kube-system"; "kube-public"; "kube-node-lease"]) ∧
  (pattern ≠ "" →
     ∀ re, regexp_Compile pattern = ok re →
       result = ok (List.filter (regexp_MatchString re) items) ∧
       ∀ namespace,
         regexp_MatchString re namespace = true ↔
         ∃ i j, i ≤ j ≤ String.length namespace ∧
                regexp_match_at re namespace i j = true) ∧
  (pattern ≠ "" →
     ∀ e, regexp_Compile pattern = failed e →
       result = failed ("invalid namespace pattern '" +:+ pattern +:+ "': " +:+ e) ∧
       ∀ orders config deps,
         NamespacePattern config = pattern →
         ValidateChartPath world (ChartPath config) = None →
         ParseDependencies world (ChartPath config) = ok deps →
         ∃ err,
           Check world orders config t = (Some (aborted err, None), t ++ [ListNamespaces]) ∧
           ve_Type err = ErrorTypeHelmClientError).
Proof.
  intros Hlist result. subst result. rewrite getMatchingNamespaces_unfold, Hlist.
  cbn [fst]. split; [|split].
  - intros ->. rewrite bool_decide_eq_true_2 by done. split; [done|].
    split; [by vm_compute|]. intros namespace. apply IsSystemNamespace_spec.
  - intros Hne re Hre. rewrite bool_decide_eq_false_2, Hre by done. split; [done|].
    intros namespace. apply regexp_MatchString_spec.
  - intros Hne e He. rewrite bool_decide_eq_false_2, He by done. split; [done|].
    intros orders config deps Hpattern Hpath Hparse.
    destruct (Check_run orders config t)
      as [(msg & Hpath' & _)|[(err & e' & _ & Hparse' & _)|
          [(deps' & msg & _ & Hparse' & Hns & ->)|
           (deps' & namespaces & report & errors & _ & _ & Hns & _)]]];
      [congruence..| |].
    + by eexists.
    + exfalso. unfold getMatchedNamespaces, GetMatchingNamespaces in Hns.
      rewrite getMatchingNamespaces_unfold, Hlist, Hpattern in Hns. cbn [fst] in Hns.
      by rewrite bool_decide_eq_false_2, He in Hns.
Qed.

(** *** The error of a failed result *)

Lemma prefix_app p : ∀ s, String.prefix p s = true → ∃ r, s = p +:+ r.
Proof.
  induction p as [|c p IH]; intros s Hp; [by exists s|].
  destruct s as [|c' s]; simpl in Hp; [done|].
  destruct (Ascii.ascii_dec c c') as [->|]; [|done].
  destruct (IH s Hp) as [r ->]. by exists r.
Qed.

Lemma strings_Contains_app_r p s sub :
  strings_Contains s sub = true → strings_Contains (p +:+ s) sub = true.
Proof.
  intros Hs. induction p as [|c p IH]; [done|].
  simpl. rewrite IH. apply orb_true_r.
Qed.

Lemma no_space_tail c s : no_space (String c s) → no_space s.
Proof.
  unfold no_space. simpl. intros Hs. apply orb_false_iff in Hs as [_ Hs]. done.
Qed.

(** A name without a space does not contain the text that
    [createValidationError] looks for. *)
Lemma no_space_not_multiple s :
  no_space s → strings_Contains s "multiple namespaces" = false.
Proof.
  induction s as [|c s IH]; intros Hs; [done|].
  cbn [strings_Contains]. rewrite (IH (no_space_tail _ _ Hs)), orb_false_r.
  destruct (String.prefix "multiple namespaces" (String c s)) eqn:Hp; [|done].
  apply prefix_app in Hp as [r Hr]. exfalso.
  unfold no_space in Hs. rewrite Hr in Hs.
  change ("multiple namespaces" +:+ r) with ("multiple" +:+ " namespaces" +:+ r) in Hs.
  by rewrite strings_Contains_app_r in Hs.
Qed.

Lemma duplicate_message_kind namespace :
  no_space namespace →
  strings_Contains ("multiple instances found in namespace " +:+ namespace)
    "multiple namespaces" = false.
Proof.
  intros Hs. cbv [String.append]. cbn. by apply no_space_not_multiple.
Qed.

Lemma spread_message_kind text :
  strings_Contains ("found in multiple namespaces: " +:+ text) "multiple namespaces"
  = true.
Proof. cbv [String.append]. by cbn. Qed.

Lemma getReleasesInNamespace_unfold namespace t :
  getReleasesInNamespace world namespace t =
  (match helm_List_Run world t namespace with
   | InitFailed e =>
     failed ("failed to initialize action config for namespace " +:+ namespace +:+ ": "
             +:+ e)
   | RunFailed e =>
     failed ("failed to list releases in namespace " +:+ namespace +:+ ": " +:+ e)
   | Listed releases =>
     ok (to_Release <$>
           List.filter (λ rel, bool_decide (hr_Status rel = release_StatusDeployed))
             releases)
   end, t ++ [ListReleases namespace]).
Proof. done. Qed.

Lemma GetReleases_in_cons namespace rest allReleases t :
  GetReleases_in world (namespace :: rest) allReleases t =
  let r := getReleasesInNamespace world namespace t in
  match r.1 with
  | failed _ => GetReleases_in world rest allReleases r.2
  | ok releases => GetReleases_in world rest (allReleases ++ releases) r.2
  end.
Proof.
  cbn [GetReleases_in]. unfold mbind, M_bind.
  by destruct (getReleasesInNamespace world namespace t) as [[] ?].
Qed.

Lemma GetReleases_in_Forall (P : Release → Prop) namespaces : ∀ allReleases t,
  (∀ t' namespace releases,
     helm_List_Run world t' namespace = Listed releases →
     Forall (λ rel, P (to_Release rel)) releases) →
  Forall P allReleases →
  Forall P (GetReleases_in world namespaces allReleases t).1.
Proof.
  induction namespaces as [|namespace rest IH]; intros allReleases t Hworld Hall; [done|].
  rewrite GetReleases_in_cons, getReleasesInNamespace_unfold. cbn [fst snd].
  destruct (helm_List_Run world t namespace) as [msg|msg|releases] eqn:Hrun;
    apply IH; try done.
  apply Forall_app. split; [done|]. apply Forall_fmap.
  specialize (Hworld _ _ _ Hrun). apply Forall_forall. intros rel Hrel.
  apply list_elem_of_In, filter_In in Hrel as [Hrel%list_elem_of_In _].
  by eapply Forall_forall in Hworld.
Qed.

Lemma FindReleasesByChartName_plain chartName namespacePattern t releases :
  plain_namespaces world →
  (FindReleasesByChartName world chartName namespacePattern t).1 = ok releases →
  Forall (λ release, no_space (rel_Namespace release)) releases.
Proof.
  intros Hplain. unfold FindReleasesByChartName, GetReleases, mbind, M_bind.
  rewrite getMatchingNamespaces_unfold.
  destruct (match kube_Namespaces_List world t with ok _ => _ | failed _ => _ end)
    as [namespaces|e]; [|done].
  pose proof (GetReleases_in_Forall (λ release, no_space (rel_Namespace release))
                namespaces [] (t ++ [ListNamespaces]) Hplain (Forall_nil_2 _)) as Hall.
  destruct (GetReleases_in world namespaces [] (t ++ [ListNamespaces])) as [all t1].
  simpl in *. intros [= <-]. apply Forall_forall. intros release Hrel.
  apply list_elem_of_In, filter_In in Hrel as [Hrel%list_elem_of_In _].
  by eapply Forall_forall in Hall.
Qed.

(** What lies behind a result of [checkSingleDependency]: how a
    [MultipleFound] came about, and where the releases found come from. *)
Lemma checkSingleDependency_found orders dep namespacePattern t :
  let d := (checkSingleDependency world orders dep namespacePattern t).1 in
  (dr_Status d = StatusMultipleFound → ambiguity d) ∧
  (plain_namespaces world →
   Forall (λ release, no_space (rel_Namespace release)) (dr_FoundReleases d)).
Proof.
  rewrite checkSingleDependency_unfold. cbn zeta. cbn [fst].
  pose proof (FindReleasesByChartName_plain (dep_Name dep) namespacePattern t) as Hplain.
  destruct (FindReleasesByChartName world (dep_Name dep) namespacePattern t).1
    as [releases|e]; [|by split].
  specialize (Hplain releases).
  pose proof (classify_cases orders dep releases) as Hc. cbn zeta in Hc.
  destruct releases as [|release releases]; [by rewrite Hc|].
  destruct (decide (duplicated_in_a_namespace (release :: releases))).
  { destruct Hc as (namespace & Hlen & ->). simpl. split.
    - intros _. left. exists namespace. split; [done|]. split; [done|].
      apply Forall_forall. by intros r [? _]%list_elem_of_filter.
    - intros Hp. specialize (Hplain Hp eq_refl). apply Forall_forall.
      intros r [_ Hr]%list_elem_of_filter. by eapply Forall_forall in Hplain. }
  destruct (decide (spread_over_namespaces (release :: releases))).
  { destruct Hc as (namespaces & Hperm & ->). simpl. split; [|by auto].
    intros _. right. by exists namespaces. }
  destruct Hc as [Heq ->]. injection Heq as ->.
  destruct (isVersionCompatible _ _) as [[]|]; simpl; (split; [done|by auto]).
Qed.

Lemma filter_all {A} (P : A → Prop) `{!∀ x, Decision (P x)} (l : list A) :
  Forall P l → filter P l = l.
Proof.
  induction 1 as [|x l Hx Hl IH]; [done|]. by rewrite filter_cons_True, IH.
Qed.

Lemma remove_dups_constant (a : string) l :
  Forall (λ x, x = a) l → length (remove_dups l) ≤ 1.
Proof.
  intros Hall. change 1 with (length [a]). apply submseteq_length.
  apply NoDup_submseteq; [apply NoDup_remove_dups|].
  intros x Hx. apply (proj1 (elem_of_remove_dups _ _)) in Hx.
  rewrite Forall_forall in Hall. rewrite (Hall x Hx). left.
Qed.

(** The kind of the error follows the taxonomy. *)
Lemma createValidationError_taxonomy d namespacePattern e :
  resolved d →
  (dr_Status d = StatusMultipleFound → ambiguity d) →
  Forall (λ release, no_space (rel_Namespace release)) (dr_FoundReleases d) →
  createValidationError d namespacePattern = Some e →
  follows_taxonomy d e.
Proof.
  intros (_ & Hmis & _) Hamb Hplain. unfold createValidationError, follows_taxonomy.
  case_bool_decide as Hnf.
  { intros [= <-]. rewrite Hnf. by repeat split. }
  case_bool_decide as Hvm.
  { destruct (dr_FoundReleases d !! 0) eqn:H0; [|done]. intros [= <-]. rewrite Hvm.
    repeat split; try done. by apply Hmis. }
  case_bool_decide as Hmf.
  2: { intros [= <-]. by repeat split. }
  rewrite Hmf. destruct (Hamb Hmf) as
    [(namespace & -> & Hlen & Hsame)|(namespaces & -> & Hspread & Hnodup)].
  - destruct (dr_FoundReleases d) as [|first rest] eqn:Hfound; [simpl in Hlen; lia|].
    assert (rel_Namespace first = namespace) as Hfirst by by inversion Hsame.
    assert (no_space namespace) as Hns.
    { rewrite <- Hfirst. by inversion Hplain. }
    rewrite duplicate_message_kind by done. simpl. intros [= <-]. simpl.
    assert (¬ spread_over_namespaces (first :: rest)) as Hnot.
    { unfold spread_over_namespaces, namespaces_of.
      pose proof (remove_dups_constant namespace (rel_Namespace <$> first :: rest)
                    ltac:(by apply Forall_fmap)). lia. }
    assert (duplicated_in_a_namespace (first :: rest)) as Hdup.
    { apply Exists_cons_hd. unfold in_namespace. rewrite Hfirst.
      by rewrite filter_all. }
    repeat split; try done; auto.
  - rewrite spread_message_kind. intros [= <-]. simpl. repeat split; try done; auto.
Qed.

Lemma ParseDependencies_NoDup chartPath deps :
  ParseDependencies world chartPath = ok deps →
  NoDup (dep_Name <$> Dependencies_of deps).
Proof.
  unfold ParseDependencies.
  destruct (os_ReadFile world _) as [data|e].
  - destruct (yaml_Unmarshal data) as [deps'|e]; [|done].
    destruct (validateDependencies deps' _) eqn:Hval; [done|].
    intros [= <-]. by eapply validated_names_NoDup.
  - destruct (_ || _); [|done]. intros [= <-]. constructor.
Qed.

Lemma resolve_each_found orders deps namespacePattern : ∀ i t,
  Forall (λ d, (dr_Status d = StatusMultipleFound → ambiguity d) ∧
               (plain_namespaces world →
                Forall (λ release, no_space (rel_Namespace release))
                       (dr_FoundReleases d)))
         (resolve_each world orders i deps namespacePattern t).1.
Proof.
  induction deps as [|dep rest IH]; intros i t; [by constructor|].
  rewrite resolve_each_cons. cbn zeta. cbn [fst snd]. constructor; [|apply IH].
  apply checkSingleDependency_found.
Qed.

Lemma NoDup_fmap_eq {A B} (f : A → B) (l : list A) x y :
  NoDup (f <$> l) → x ∈ l → y ∈ l → f x = f y → x = y.
Proof.
  intros Hnodup [i Hi]%list_elem_of_lookup [j Hj]%list_elem_of_lookup Heq.
  assert (i = j) as ->; [|congruence].
  eapply NoDup_lookup; [done| |]; rewrite list_lookup_fmap.
  - by rewrite Hi.
  - rewrite Hj. simpl. by rewrite Heq.
Qed.

(** Among entries with pairwise distinct keys, the kept ones that have the
    key of [x] are [x] alone, when it is kept. *)
Lemma count_key {A B} `{EqDecision B} (f : A → B) (Q : A → Prop)
    `{!∀ x, Decision (Q x)} (l : list A) x :
  NoDup (f <$> l) → x ∈ l →
  length (filter (λ y, f y = f x) (filter Q l)) = if decide (Q x) then 1 else 0.
Proof.
  intros Hnodup Hx.
  assert (filter (λ y, f y = f x) (filter Q l) = if decide (Q x) then [x] else [])
    as ->; [|by case_decide].
  induction l as [|y l IH]; [by apply elem_of_nil in Hx|].
  rewrite fmap_cons in Hnodup. apply NoDup_cons in Hnodup as [Hy Hnodup].
  apply elem_of_cons in Hx as [->|Hx].
  - assert (filter (λ z, f z = f y) (filter Q l) = []) as Hrest.
    { destruct (filter _ (filter Q l)) as [|z zs] eqn:Hf; [done|]. exfalso.
      assert (z ∈ filter (λ z, f z = f y) (filter Q l)) as Hz by (rewrite Hf; left).
      apply list_elem_of_filter in Hz as [Hfz [_ Hz]%list_elem_of_filter].
      apply Hy. rewrite <- Hfz. apply list_elem_of_fmap. eauto. }
    rewrite filter_cons. case_decide; [|done].
    by rewrite filter_cons_True, Hrest.
  - assert (f y ≠ f x) as Hne.
    { intros Heq. apply Hy. rewrite Heq. apply list_elem_of_fmap. eauto. }
    rewrite filter_cons. destruct (decide (Q y)); [|by apply IH].
    rewrite filter_cons_False by done. by apply IH.
Qed.

Lemma errors_by_chart namespacePattern name ds es :
  Forall2 (λ d e, createValidationError d namespacePattern = Some e) ds es →
  length (filter (λ e, ve_Chart e = name) es) =
  length (filter (λ d, dr_Name d = name) ds).
Proof.
  induction 1 as [|d e ds es Hde Hall IH]; [done|].
  apply createValidationError_chart in Hde. rewrite !filter_cons, Hde.
  case_decide; simpl; by rewrite IH.
Qed.

(** C8. In the report [Check] returns, every [DependencyResult] that is
    not [Satisfied] has exactly one error carrying its name (a [Satisfied]
    one has none), and the kind of that error follows the taxonomy:
    [dependency_not_found] for [NotFound]; [version_mismatch] for the
    single release that fails the constraint; for [MultipleFound],
    [multiple_deployments] exactly when the matched releases of the result
    lie in more than one namespace and [duplicate_in_namespace] exactly
    when more than one of them sits in one namespace; [helm_client_error]
    for [Error].  Namespace names are taken to hold no space, as
    Kubernetes names do. *)
Theorem errors_follow_taxonomy orders config t :
  plain_namespaces world →
  ∃ report t',
    Check world orders config t = (Some (report, None), t') ∧
    Forall (λ d,
      length (filter (λ e, ve_Chart e = dr_Name d) (Errors report)) =
        (if decide (dr_Status d ≠ StatusSatisfied) then 1 else 0) ∧
      ∀ e, e ∈ Errors report → ve_Chart e = dr_Name d → follows_taxonomy d e)
    (Dependencies report).
Proof.
  intros Hplain.
  destruct (Check_run orders config t)
    as [(msg & Hpath & ->)|[(err & e & Hpath & Hparse & He & ->)|
        [(deps & msg & Hpath & Hparse & Hns & ->)|
         (deps & namespaces & report & errors & Hpath & Hparse & Hns & -> & HD & Herrs
            & HE & HS & HSu & HM)]]];
    eexists _, _; (split; [done|]); [by constructor..|].
  rewrite HD, HE.
  set (results := (resolve_each world orders 0 (Dependencies_of deps)
                     (NamespacePattern config) (t ++ [ListNamespaces])).1) in *.
  assert (NoDup (dr_Name <$> results)) as Hnames.
  { subst results. rewrite resolve_each_names. by eapply ParseDependencies_NoDup. }
  pose proof (resolve_each_resolved orders (Dependencies_of deps)
                (NamespacePattern config) 0 (t ++ [ListNamespaces])) as Hres.
  pose proof (resolve_each_found orders (Dependencies_of deps)
                (NamespacePattern config) 0 (t ++ [ListNamespaces])) as Hfound.
  fold results in Hres, Hfound.
  apply Forall_forall. intros d Hd. split.
  - rewrite (errors_by_chart _ _ _ _ Herrs). unfold failures.
    by apply (count_key dr_Name).
  - intros e [i Hi]%list_elem_of_lookup Hchart.
    destruct (Forall2_lookup_r _ _ _ _ _ Herrs Hi) as (d' & Hd' & Hcreate).
    apply list_elem_of_lookup_2, list_elem_of_filter in Hd' as [_ Hd'].
    assert (d' = d) as ->.
    { apply (NoDup_fmap_eq dr_Name results); try done.
      apply createValidationError_chart in Hcreate. congruence. }
    rewrite Forall_forall in Hres, Hfound.
    destruct (Hfound d Hd) as [Hamb Hns']. eapply createValidationError_taxonomy; eauto.
Qed.

(** *** The order in which maps are walked *)







End ProgramFacts.


(** ** More facts *)

Section MoreFacts.
Context `{libs : GoLibs} `{decoder : ChartDecoder} (world : World) (disk : Disk).

(** *** One dependency *)

Lemma isVersionCompatible_ok foundVersion requiredConstraint compatible :
  isVersionCompatible foundVersion requiredConstraint = ok compatible ↔
  ∃ version constraint,
    semver_NewVersion foundVersion = ok version ∧
    semver_NewConstraint requiredConstraint = ok constraint ∧
    compatible = semver_Check constraint version.
Proof.
  unfold isVersionCompatible.
  destruct (semver_NewVersion foundVersion) as [version|e1];
    [destruct (semver_NewConstraint requiredConstraint) as [constraint|e2]|].
  - split; [intros [= <-]; eauto|]. by intros (? & ? & [= <-] & [= <-] & ->).
  - split; [done|]. by intros (? & ? & _ & ? & _).
  - split; [done|]. by intros (? & ? & ? & _).
Qed.

(** The four ways a lookup ends, with everything the result holds. *)
Lemma checkSingleDependency_outcome orders dep namespacePattern t :
  let lookup := (FindReleasesByChartName world (dep_Name dep) namespacePattern t).1 in
  let d := (checkSingleDependency world orders dep namespacePattern t).1 in
  (∃ e, lookup = failed e ∧
        d = with_outcome (pending dep) StatusError [] ("failed to find releases: " +:+ e)) ∨
  (lookup = ok [] ∧ d = with_outcome (pending dep) StatusNotFound [] "") ∨
  (∃ releases found message,
     lookup = ok releases ∧ 1 < length releases ∧
     d = with_outcome (pending dep) StatusMultipleFound found message ∧
     found ⊆ releases) ∨
  (∃ release,
     lookup = ok [release] ∧
     d = match isVersionCompatible (chart_Version (rel_Chart release))
                 (dep_Version dep) with
         | failed e =>
           with_outcome (pending dep) StatusError [release]
             ("version compatibility check failed: " +:+ e)
         | ok true => with_outcome (pending dep) StatusSatisfied [release] ""
         | ok false => with_outcome (pending dep) StatusVersionMismatch [release] ""
         end).
Proof.
  intros lookup d. subst lookup d. rewrite checkSingleDependency_unfold.
  cbn zeta. cbn [fst].
  destruct (FindReleasesByChartName world (dep_Name dep) namespacePattern t).1
    as [releases|e]; [|left; eauto].
  right. pose proof (classify_cases orders dep releases) as Hc. cbn zeta in Hc.
  destruct releases as [|release releases]; [by left|]. right.
  destruct (decide (duplicated_in_a_namespace (release :: releases))) as [Hdup|Hdup].
  { destruct Hc as (namespace & Hlen & ->). left. eexists _, _, _.
    split; [done|]. split; [|split; [done|]].
    - pose proof (length_filter (λ r, rel_Namespace r = namespace) (release :: releases)).
      unfold in_namespace in Hlen. lia.
    - intros r [_ Hr]%list_elem_of_filter. done. }
  destruct (decide (spread_over_namespaces (release :: releases))) as [Hsp|Hsp].
  { destruct Hc as (namespaces & Hperm & ->). left. eexists _, _, _.
    split; [done|]. split; [|split; [done|done]].
    destruct releases; [|simpl; lia]. by vm_compute in Hsp. }
  destruct Hc as [Heq ->]. injection Heq as ->. right. by exists release.
Qed.

Lemma GetReleases_in_deployed namespaces : ∀ allReleases t,
  Forall (λ release, rel_Status release = release_StatusDeployed) allReleases →
  Forall (λ release, rel_Status release = release_StatusDeployed)
         (GetReleases_in world namespaces allReleases t).1.
Proof.
  induction namespaces as [|namespace rest IH]; intros allReleases t Hall; [done|].
  rewrite GetReleases_in_cons, getReleasesInNamespace_unfold. cbn [fst snd].
  destruct (helm_List_Run world t namespace) as [msg|msg|releases]; apply IH; try done.
  apply Forall_app. split; [done|]. apply Forall_fmap, Forall_forall.
  intros rel Hrel. apply list_elem_of_In, filter_In in Hrel as [_ Hrel].
  by apply bool_decide_eq_true in Hrel.
Qed.

Lemma FindReleasesByChartName_deployed chartName namespacePattern t releases :
  (FindReleasesByChartName world chartName namespacePattern t).1 = ok releases →
  Forall (λ release, chart_Name (rel_Chart release) = chartName ∧
                     rel_Status release = release_StatusDeployed) releases.
Proof.
  unfold FindReleasesByChartName, GetReleases, mbind, M_bind.
  rewrite getMatchingNamespaces_unfold.
  destruct (match kube_Namespaces_List world t with ok _ => _ | failed _ => _ end)
    as [namespaces|e]; [|done].
  pose proof (GetReleases_in_deployed namespaces [] (t ++ [ListNamespaces])
                (Forall_nil_2 _)) as Hall.
  destruct (GetReleases_in world namespaces [] (t ++ [ListNamespaces])) as [all t1].
  simpl in *. intros [= <-]. apply Forall_forall. intros release Hrel.
  apply list_elem_of_In, filter_In in Hrel as [Hrel%list_elem_of_In Hname].
  apply bool_decide_eq_true in Hname. rewrite Forall_forall in Hall. auto.
Qed.

(** X1. A verdict is backed by the release it reports: a result is
    [Satisfied] or [VersionMismatch] only with exactly one release found,
    whose chart version parses and, with the parsed constraint of the
    dependency, passes the semver check exactly when the result is
    [Satisfied]; a [NotFound] result reports no release and no message. *)
Theorem verdict_is_sound orders dep namespacePattern t :
  let d := (checkSingleDependency world orders dep namespacePattern t).1 in
  (dr_Status d = StatusSatisfied ∨ dr_Status d = StatusVersionMismatch →
     ∃ release version constraint,
       dr_FoundReleases d = [release] ∧
       semver_NewVersion (chart_Version (rel_Chart release)) = ok version ∧
       semver_NewConstraint (dep_Version dep) = ok constraint ∧
       (semver_Check constraint version = true ↔ dr_Status d = StatusSatisfied)) ∧
  (dr_Status d = StatusNotFound → dr_FoundReleases d = [] ∧ dr_Error d = "").
Proof.
  intros d. subst d.
  destruct (checkSingleDependency_outcome orders dep namespacePattern t)
    as [(e & _ & ->)|[[_ ->]|[(releases & found & message & _ & _ & -> & _)|
        (release & _ & ->)]]]; simpl.
  - split; [by intros []|done].
  - split; [by intros []|done].
  - split; [by intros []|done].
  - destruct (isVersionCompatible _ _) as [compatible|e] eqn:Hcompat.
    + apply isVersionCompatible_ok in Hcompat as (version & constraint & Hv & Hc & ->).
      destruct (semver_Check constraint version) eqn:Hcheck; simpl;
        (split; [|done]); intros _; exists release, version, constraint;
        rewrite Hcheck; repeat split; done.
    + simpl. split; [by intros []|done].
Qed.

(** X2. Every release a result reports is a deployed release of the chart
    that carries the dependency's name. *)
Theorem found_releases_are_deployed_charts orders dep namespacePattern t :
  Forall (λ release, chart_Name (rel_Chart release) = dep_Name dep ∧
                     rel_Status release = release_StatusDeployed)
         (dr_FoundReleases (checkSingleDependency world orders dep namespacePattern t).1).
Proof.
  pose proof (FindReleasesByChartName_deployed (dep_Name dep) namespacePattern t) as Hall.
  destruct (checkSingleDependency_outcome orders dep namespacePattern t)
    as [(e & _ & ->)|[[_ ->]|[(releases & found & message & Hl & _ & -> & Hsub)|
        (release & Hl & ->)]]]; simpl; try done.
  - specialize (Hall _ Hl). rewrite Forall_forall in Hall |- *. auto.
  - specialize (Hall _ Hl). by destruct (isVersionCompatible _ _) as [[]|].
Qed.

(** *** The declaration *)

Lemma validated_entries deps filePath :
  validateDependencies deps filePath = None →
  Forall (λ dep, strings_TrimSpace (dep_Name dep) ≠ "" ∧
                 strings_TrimSpace (dep_Version dep) ≠ "" ∧
                 ∃ constraint, semver_NewConstraint (dep_Version dep) = ok constraint)
         (Dependencies_of deps).
Proof.
  intros Hval. pose proof (validateDependencies_spec deps filePath) as Hspec.
  rewrite Hval in Hspec. apply Forall_forall.
  intros dep [k Hk]%list_elem_of_lookup. specialize (Hspec k dep Hk).
  split; [|split].
  - intros Hblank. apply Hspec. left. by left.
  - intros Hblank. apply Hspec. left. right. by left.
  - destruct (semver_NewConstraint (dep_Version dep)) as [c|e] eqn:Hc; [eauto|].
    destruct Hspec. right. eauto.
Qed.

Lemma ParseDependencies_cases chartPath :
  match ParseDependencies world chartPath with
  | ok deps =>
    NoDup (dep_Name <$> Dependencies_of deps) ∧
    Forall (λ dep, strings_TrimSpace (dep_Name dep) ≠ "" ∧
                   strings_TrimSpace (dep_Version dep) ≠ "" ∧
                   ∃ constraint, semver_NewConstraint (dep_Version dep) = ok constraint)
           (Dependencies_of deps)
  | failed err =>
    ∃ e, err = AsValidationError e ∧
         (ve_Type e = ErrorTypeInvalidDependencyFile ∨
          ve_Type e = ErrorTypeInvalidVersionConstraint) ∧
         ed_File (ve_Details e) = filepath_Join chartPath "dependencies.yaml"
  end.
Proof.
  unfold ParseDependencies.
  destruct (os_ReadFile world _) as [data|e].
  - destruct (yaml_Unmarshal data) as [deps|e]; [|eexists; split; [done|]; by split; [left|]].
    pose proof (validateDependencies_spec deps
                  (filepath_Join chartPath "dependencies.yaml")) as Hspec.
    destruct (validateDependencies deps _) as [e|] eqn:Hval.
    + destruct Hspec as (k & dep & _ & Htype & Hfile & _). exists e.
      split; [done|]. split; [|done]. rewrite Htype. case_decide; auto.
    + split; [by eapply validated_names_NoDup|by eapply validated_entries].
  - destruct (_ || _).
    + split; constructor.
    + eexists. split; [done|]. by split; [left|].
Qed.

(** X3. What [ParseDependencies] returns: a declaration only if its names
    are pairwise distinct, no name or constraint is blank and every
    constraint parses; otherwise a [ValidationError] (never another kind of
    error) of kind [invalid_dependency_file] or
    [invalid_version_constraint] that names the [dependencies.yaml] of the
    chart. *)
Theorem ParseDependencies_result chartPath :
  match ParseDependencies world chartPath with
  | ok deps =>
    NoDup (dep_Name <$> Dependencies_of deps) ∧
    Forall (λ dep, strings_TrimSpace (dep_Name dep) ≠ "" ∧
                   strings_TrimSpace (dep_Version dep) ≠ "" ∧
                   ∃ constraint, semver_NewConstraint (dep_Version dep) = ok constraint)
           (Dependencies_of deps)
  | failed err =>
    ∃ e, err = AsValidationError e ∧
         (ve_Type e = ErrorTypeInvalidDependencyFile ∨
          ve_Type e = ErrorTypeInvalidVersionConstraint) ∧
         ed_File (ve_Details e) = filepath_Join chartPath "dependencies.yaml"
  end.
Proof. apply ParseDependencies_cases. Qed.

Lemma ParseDependencies_constraints chartPath deps :
  ParseDependencies world chartPath = ok deps →
  Forall (λ dep, ∃ constraint, semver_NewConstraint (dep_Version dep) = ok constraint)
         (Dependencies_of deps).
Proof.
  unfold ParseDependencies.
  destruct (os_ReadFile world _) as [data|e].
  - destruct (yaml_Unmarshal data) as [deps'|e]; [|done].
    destruct (validateDependencies deps' _) eqn:Hval; [done|]. intros [= <-].
    eapply Forall_impl; [by eapply validated_entries|]. by intros dep (_ & _ & ?).
  - destruct (_ || _); [|done]. intros [= <-]. constructor.
Qed.

(** *** The results of a report *)

Lemma resolve_each_Forall2 (P : Dependency → DependencyResult → Prop) orders deps
    namespacePattern :
  (∀ o dep t, P dep (checkSingleDependency world o dep namespacePattern t).1) →
  ∀ i t, Forall2 P deps (resolve_each world orders i deps namespacePattern t).1.
Proof.
  intros HP. induction deps as [|dep rest IH]; intros i t; [constructor|].
  rewrite resolve_each_cons. cbn zeta. cbn [fst snd]. constructor; [apply HP|apply IH].
Qed.

Lemma resolve_each_Forall (Q : DependencyResult → Prop) orders deps namespacePattern :
  (∀ o dep t, Q (checkSingleDependency world o dep namespacePattern t).1) →
  ∀ i t, Forall Q (resolve_each world orders i deps namespacePattern t).1.
Proof.
  intros HQ. induction deps as [|dep rest IH]; intros i t; [constructor|].
  rewrite resolve_each_cons. cbn zeta. cbn [fst snd]. constructor; [apply HQ|apply IH].
Qed.

(** A property that every lookup gives its result holds of the results of
    every report, dependency by dependency. *)
Lemma report_results (P : Dependency → DependencyResult → Prop) orders config t :
  (∀ o dep t', P dep (checkSingleDependency world o dep (NamespacePattern config) t').1) →
  ∃ report t',
    Check world orders config t = (Some (report, None), t') ∧
    (Dependencies report = [] ∨
     ∃ deps, ParseDependencies world (ChartPath config) = ok deps ∧
             Forall2 P (Dependencies_of deps) (Dependencies report)).
Proof.
  intros HP.
  destruct (Check_run world orders config t)
    as [(msg & Hpath & ->)|[(err & e & Hpath & Hparse & He & ->)|
        [(deps & msg & Hpath & Hparse & Hns & ->)|
         (deps & namespaces & report & errors & Hpath & Hparse & Hns & -> & HD & Herrs
            & HE & HS & HSu & HM)]]];
    eexists _, _; (split; [done|]); [by left..|].
  right. exists deps. split; [done|]. rewrite HD. by apply resolve_each_Forall2.
Qed.

Lemma FindReleasesByChartName_failed chartName namespacePattern t e :
  (FindReleasesByChartName world chartName namespacePattern t).1 = failed e →
  ∃ e', (getMatchingNamespaces world namespacePattern t).1 = failed e' ∧
        e = "failed to get matching namespaces: " +:+ e'.
Proof.
  unfold FindReleasesByChartName, GetReleases, mbind, M_bind.
  destruct (getMatchingNamespaces world namespacePattern t) as [[namespaces|e'] t1].
  - by destruct (GetReleases_in world namespaces [] t1).
  - simpl. intros [= <-]. eauto.
Qed.

(** X4. In a report, an [Error] outcome has one of two causes: the
    namespaces could not be enumerated for the lookup, or the single
    release found carries a chart version that is no semantic version.  The
    constraint is never the cause: validation has parsed it before. *)
Theorem error_outcome_causes orders config t :
  ∃ report t',
    Check world orders config t = (Some (report, None), t') ∧
    Forall (λ d,
      dr_Status d = StatusError →
      (dr_FoundReleases d = [] ∧
       ∃ e, dr_Error d =
              "failed to find releases: failed to get matching namespaces: " +:+ e) ∨
      (∃ release e,
         dr_FoundReleases d = [release] ∧
         semver_NewVersion (chart_Version (rel_Chart release)) = failed e ∧
         dr_Error d =
           "version compatibility check failed: invalid found version '" +:+
           chart_Version (rel_Chart release) +:+ "': " +:+ e))
      (Dependencies report).
Proof.
  destruct (report_results
    (λ dep d,
      (∃ constraint, semver_NewConstraint (dep_Version dep) = ok constraint) →
      dr_Status d = StatusError →
      (dr_FoundReleases d = [] ∧
       ∃ e, dr_Error d =
              "failed to find releases: failed to get matching namespaces: " +:+ e) ∨
      (∃ release e,
         dr_FoundReleases d = [release] ∧
         semver_NewVersion (chart_Version (rel_Chart release)) = failed e ∧
         dr_Error d =
           "version compatibility check failed: invalid found version '" +:+
           chart_Version (rel_Chart release) +:+ "': " +:+ e))
    orders config t) as (report & t' & Hcheck & Hresults).
  { intros o dep t1 [constraint Hconstraint].
    destruct (checkSingleDependency_outcome o dep (NamespacePattern config) t1)
      as [(e & Hl & ->)|[[_ ->]|[(releases & found & message & _ & _ & -> & _)|
          (release & _ & ->)]]]; simpl; try done.
    - intros _. left. split; [done|].
      apply FindReleasesByChartName_failed in Hl as (e' & _ & ->). eauto.
    - unfold isVersionCompatible. rewrite Hconstraint.
      destruct (semver_NewVersion _) as [version|e] eqn:Hv.
      + by destruct (semver_Check constraint version).
      + intros _. right. by exists release, e. }
  exists report, t'. split; [done|].
  destruct Hresults as [->|(deps & Hparse & Hall)]; [constructor|].
  apply ParseDependencies_constraints in Hparse.
  induction Hall as [|dep d deps' ds Hd _ IH]; [constructor|].
  apply Forall_cons in Hparse as [Hdep Hparse]. constructor; auto.
Qed.

Lemma createValidationError_required d namespacePattern e :
  createValidationError d namespacePattern = Some e →
  ed_RequiredVersion (ve_Details e) = dr_RequiredVersion d.
Proof.
  unfold createValidationError. intros Heq.
  repeat case_match; simplify_option_eq; done.
Qed.

(** X5. A report that reaches resolution holds one result for each declared
    dependency, in declaration order, under the dependency's name and
    constraint, whatever happens to the other dependencies; [Summary.Total]
    is the number of declared dependencies. *)
Theorem results_follow_declaration orders config t :
  reaches_resolution world config t →
  ∃ report t' deps,
    Check world orders config t = (Some (report, None), t') ∧
    ParseDependencies world (ChartPath config) = ok deps ∧
    Forall2 (λ dep d, dr_Name d = dep_Name dep ∧ dr_RequiredVersion d = dep_Version dep)
            (Dependencies_of deps) (Dependencies report) ∧
    s_Total (Summary report) = wrap64 (Z.of_nat (length (Dependencies_of deps))).
Proof.
  intros (Hpath & [deps Hparse] & [namespaces Hns]).
  destruct (Check_run world orders config t)
    as [(msg & Hpath' & _)|[(err & e & _ & Hparse' & _)|
        [(deps' & msg & _ & _ & Hns' & _)|
         (deps' & namespaces' & report & errors & _ & Hparse' & _ & Hcheck & HD & _
            & _ & HS & _)]]]; [congruence..|].
  assert (deps' = deps) as -> by congruence.
  exists report. eexists. exists deps. split; [done|]. split; [done|].
  assert (Forall2 (λ dep d, dr_Name d = dep_Name dep ∧
                            dr_RequiredVersion d = dep_Version dep)
            (Dependencies_of deps) (Dependencies report)) as Hall.
  { rewrite HD. apply resolve_each_Forall2. intros o dep t1.
    apply checkSingleDependency_names. }
  split; [done|].
  pose proof (count_status_foldl (Dependencies report) 0 0 0 0 0 0) as Hfold.
  change (wrap64 0) with 0%Z in Hfold. fold no_summary in Hfold.
  rewrite <- HD in HS. rewrite HS, Hfold. simpl.
  by rewrite (Forall2_length _ _ _ Hall).
Qed.

(** X6. In a report that reaches resolution, the errors are those of the
    results that are not [Satisfied], in the order of the results, each
    under the name and the constraint of its dependency. *)
Theorem errors_follow_results orders config t :
  reaches_resolution world config t →
  ∃ report t',
    Check world orders config t = (Some (report, None), t') ∧
    Forall2 (λ d e, ve_Chart e = dr_Name d ∧
                    ed_RequiredVersion (ve_Details e) = dr_RequiredVersion d)
            (failures (Dependencies report)) (Errors report).
Proof.
  intros (Hpath & [deps Hparse] & [namespaces Hns]).
  destruct (Check_run world orders config t)
    as [(msg & Hpath' & _)|[(err & e & _ & Hparse' & _)|
        [(deps' & msg & _ & _ & Hns' & _)|
         (deps' & namespaces' & report & errors & _ & Hparse' & _ & Hcheck & HD & Herrs
            & HE & _)]]]; [congruence..|].
  exists report. eexists. split; [done|]. rewrite HD, HE.
  eapply Forall2_impl; [exact Herrs|]. intros d e Hcreate. simpl in Hcreate. split.
  - by eapply createValidationError_chart.
  - by eapply createValidationError_required.
Qed.

(** Where the errors of a report come from: the single error of an aborted
    check, or the error made for the result of a lookup. *)
Lemma report_errors orders config t :
  ∃ report t',
    Check world orders config t = (Some (report, None), t') ∧
    Forall (λ e,
      ve_Type e = ErrorTypeInvalidDependencyFile ∨
      ve_Type e = ErrorTypeInvalidVersionConstraint ∨
      (ve_Type e = ErrorTypeHelmClientError ∧ ve_Chart e = "") ∨
      ∃ o dep t1,
        createValidationError
          (checkSingleDependency world o dep (NamespacePattern config) t1).1
          (NamespacePattern config) = Some e)
      (Errors report).
Proof.
  destruct (Check_run world orders config t)
    as [(msg & Hpath & ->)|[(err & e & Hpath & Hparse & He & ->)|
        [(deps & msg & Hpath & Hparse & Hns & ->)|
         (deps & namespaces & report & errors & Hpath & Hparse & Hns & -> & HD & Herrs
            & HE & HS & HSu & HM)]]];
    eexists _, _; (split; [done|]); simpl.
  - constructor; [by left|constructor].
  - constructor; [|constructor].
    pose proof (ParseDependencies_cases (ChartPath config)) as Hresult.
    rewrite Hparse in Hresult. destruct Hresult as (e' & -> & [Ht|Ht] & _); subst; auto.
  - constructor; [|constructor]. right. right. left. done.
  - rewrite HE.
    pose proof (resolve_each_Forall
      (λ d, ∃ o dep t1,
         d = (checkSingleDependency world o dep (NamespacePattern config) t1).1)
      orders (Dependencies_of deps) (NamespacePattern config)
      (λ o dep t1, ex_intro _ o (ex_intro _ dep (ex_intro _ t1 eq_refl)))
      0 (t ++ [ListNamespaces])) as Hall.
    assert (Forall (λ d, ∃ o dep t1,
         d = (checkSingleDependency world o dep (NamespacePattern config) t1).1)
      (failures (resolve_each world orders 0 (Dependencies_of deps)
                   (NamespacePattern config) (t ++ [ListNamespaces])).1)) as Hf.
    { apply Forall_forall. intros d [_ Hd]%list_elem_of_filter.
      rewrite Forall_forall in Hall. auto. }
    clear - Herrs Hf. induction Herrs as [|d e ds es Hde _ IH]; [constructor|].
    apply Forall_cons in Hf as [(o & dep & t1 & ->) Hf].
    constructor; [|auto]. right. right. right. eauto.
Qed.

Lemma report_results_Forall (Q : DependencyResult → Prop) orders config t :
  (∀ o dep t', Q (checkSingleDependency world o dep (NamespacePattern config) t').1) →
  ∃ report t',
    Check world orders config t = (Some (report, None), t') ∧
    Forall Q (Dependencies report).
Proof.
  intros HQ.
  destruct (Check_run world orders config t)
    as [(msg & Hpath & ->)|[(err & e & Hpath & Hparse & He & ->)|
        [(deps & msg & Hpath & Hparse & Hns & ->)|
         (deps & namespaces & report & errors & Hpath & Hparse & Hns & -> & HD & _)]]];
    eexists _, _; (split; [done|]); [by constructor..|].
  rewrite HD. by apply resolve_each_Forall.
Qed.

(** The error made for the result of a lookup: its kind, and for a
    mismatch the versions it names. *)
Lemma lookup_error o dep namespacePattern t e :
  createValidationError (checkSingleDependency world o dep namespacePattern t).1
    namespacePattern = Some e →
  ve_Type e ∈ [ErrorTypeDependencyNotFound; ErrorTypeVersionMismatch;
               ErrorTypeMultipleDeployments; ErrorTypeDuplicateInNamespace;
               ErrorTypeHelmClientError] ∧
  (ve_Type e = ErrorTypeVersionMismatch →
   ∃ version constraint,
     semver_NewVersion (ed_FoundVersion (ve_Details e)) = ok version ∧
     semver_NewConstraint (ed_RequiredVersion (ve_Details e)) = ok constraint ∧
     semver_Check constraint version = false).
Proof.
  destruct (checkSingleDependency_outcome o dep namespacePattern t)
    as [(msg & _ & ->)|[[_ ->]|[(releases & found & message & _ & _ & -> & _)|
        (release & _ & ->)]]].
  - intros [= <-]. split; [outcome 4|done].
  - intros [= <-]. split; [outcome 0|done].
  - unfold createValidationError. simpl.
    destruct (strings_Contains message _); [intros [= <-]; split; [outcome 2|done]|].
    destruct (found !! 0); [|done]. intros [= <-]. split; [outcome 3|done].
  - destruct (isVersionCompatible _ _) as [compatible|msg] eqn:Hcompat.
    + apply isVersionCompatible_ok in Hcompat as (version & constraint & Hv & Hc & ->).
      destruct (semver_Check constraint version) eqn:Hcheck; intros [= <-].
      * split; [outcome 4|done].
      * split; [outcome 1|]. intros _. by exists version, constraint.
    + intros [= <-]. split; [outcome 4|done].
Qed.

(** X7. A [version_mismatch] error of a report names a deployed version
    that parses and a constraint that parses, and the version fails the
    constraint. *)
Theorem mismatch_error_names_failing_version orders config t :
  ∃ report t',
    Check world orders config t = (Some (report, None), t') ∧
    Forall (λ e,
      ve_Type e = ErrorTypeVersionMismatch →
      ∃ version constraint,
        semver_NewVersion (ed_FoundVersion (ve_Details e)) = ok version ∧
        semver_NewConstraint (ed_RequiredVersion (ve_Details e)) = ok constraint ∧
        semver_Check constraint version = false)
      (Errors report).
Proof.
  destruct (report_errors orders config t) as (report & t' & Hcheck & Hall).
  exists report, t'. split; [done|]. eapply Forall_impl; [exact Hall|].
  intros e [He|[He|[[He _]|(o & dep & t1 & Hcreate)]]]; simpl; try (by rewrite He).
  by apply lookup_error in Hcreate as [_ ?].
Qed.

Lemma known_error_text e :
  ve_Type e ∈ [ErrorTypeDependencyNotFound; ErrorTypeVersionMismatch;
               ErrorTypeMultipleDeployments; ErrorTypeDuplicateInNamespace;
               ErrorTypeInvalidDependencyFile; ErrorTypeHelmClientError;
               ErrorTypeInvalidVersionConstraint] →
  String.prefix "Unknown error" (ValidationError_Error e) = false.
Proof.
  intros Hin. unfold ValidationError_Error.
  repeat case_bool_decide; try (cbv [String.append]; by cbn).
  exfalso. rewrite !elem_of_cons, elem_of_nil in Hin. tauto.
Qed.

(** X8. Every error of a report has one of the seven error kinds, so that
    its text, as [Error] prints it, is never the fallback
    [Unknown error]. *)
Theorem report_errors_are_known orders config t :
  ∃ report t',
    Check world orders config t = (Some (report, None), t') ∧
    Forall (λ e,
      ve_Type e ∈ [ErrorTypeDependencyNotFound; ErrorTypeVersionMismatch;
                   ErrorTypeMultipleDeployments; ErrorTypeDuplicateInNamespace;
                   ErrorTypeInvalidDependencyFile; ErrorTypeHelmClientError;
                   ErrorTypeInvalidVersionConstraint] ∧
      String.prefix "Unknown error" (ValidationError_Error e) = false)
      (Errors report).
Proof.
  destruct (report_errors orders config t) as (report & t' & Hcheck & Hall).
  exists report, t'. split; [done|]. eapply Forall_impl; [exact Hall|].
  intros e He. simpl in He.
  assert (ve_Type e ∈ [ErrorTypeDependencyNotFound; ErrorTypeVersionMismatch;
                       ErrorTypeMultipleDeployments; ErrorTypeDuplicateInNamespace;
                       ErrorTypeInvalidDependencyFile; ErrorTypeHelmClientError;
                       ErrorTypeInvalidVersionConstraint]) as Hin.
  { destruct He as [He|[He|[[He _]|(o & dep & t1 & Hcreate)]]].
    - rewrite He. outcome 4.
    - rewrite He. outcome 6.
    - rewrite He. outcome 5.
    - apply lookup_error in Hcreate as [Hin _].
      rewrite !elem_of_cons, elem_of_nil in Hin.
      destruct Hin as [-> | [-> | [-> | [-> | [-> | []]]]]];
        [outcome 0|outcome 1|outcome 2|outcome 3|outcome 5]. }
  split; [done|]. by apply known_error_text.
Qed.

(** X9. The symbol that [main] prints for a result of a report is the
    check mark for [Satisfied] and the cross for every other outcome,
    never the question mark of an unknown status. *)
Theorem report_status_symbols orders config t :
  ∃ report t',
    Check world orders config t = (Some (report, None), t') ∧
    Forall (λ d,
      getStatusSymbol (dr_Status d) =
        if decide (dr_Status d = StatusSatisfied) then "✓" else "✗")
      (Dependencies report).
Proof.
  apply report_results_Forall. intros o dep t1.
  destruct (checkSingleDependency_resolved world o dep (NamespacePattern config) t1)
    as [Hin _].
  apply outcomes_cases in Hin as [-> | [-> | [-> | [-> | ->]]]]; by vm_compute.
Qed.

Lemma not_duplicated_NoDup releases :
  ¬ duplicated_in_a_namespace releases → NoDup (rel_Namespace <$> releases).
Proof.
  induction releases as [|r rest IH]; intros Hno; [constructor|].
  rewrite fmap_cons. apply NoDup_cons. split.
  - intros (r' & Heq & Hr')%list_elem_of_fmap. apply Hno, Exists_cons_hd.
    unfold in_namespace. rewrite filter_cons_True by done. simpl.
    assert (r' ∈ filter (λ release, rel_Namespace release = rel_Namespace r) rest) as Hin
      by by apply list_elem_of_filter.
    destruct (filter _ rest); [by apply elem_of_nil in Hin|simpl; lia].
  - apply IH. intros (r' & Hr' & Hlen)%Exists_exists. apply Hno, Exists_cons_tl.
    apply Exists_exists. exists r'. split; [done|].
    unfold in_namespace in *. rewrite filter_cons. case_decide; simpl; lia.
Qed.

Lemma ambiguity_details d namespacePattern e :
  (dr_Status d = StatusMultipleFound → ambiguity d) →
  Forall (λ release, no_space (rel_Namespace release)) (dr_FoundReleases d) →
  createValidationError d namespacePattern = Some e →
  (ve_Type e = ErrorTypeMultipleDeployments →
     ed_FoundNamespaces (ve_Details e) = rel_Namespace <$> dr_FoundReleases d ∧
     NoDup (ed_FoundNamespaces (ve_Details e)) ∧
     2 ≤ length (ed_FoundNamespaces (ve_Details e))) ∧
  (ve_Type e = ErrorTypeDuplicateInNamespace →
     ed_FoundReleases (ve_Details e) = rel_Name <$> dr_FoundReleases d ∧
     2 ≤ length (dr_FoundReleases d) ∧
     Forall (λ release, rel_Namespace release = ed_Namespace (ve_Details e))
            (dr_FoundReleases d)).
Proof.
  intros Hamb Hplain. unfold createValidationError.
  case_bool_decide as Hnf; [by intros [= <-]|].
  case_bool_decide as Hvm.
  { destruct (dr_FoundReleases d !! 0); [|done]. by intros [= <-]. }
  case_bool_decide as Hmf; [|by intros [= <-]].
  destruct (Hamb Hmf) as
    [(namespace & -> & Hlen & Hsame)|(namespaces & -> & Hspread & Hnodup)].
  - destruct (dr_FoundReleases d) as [|first rest] eqn:Hfound; [simpl in Hlen; lia|].
    assert (rel_Namespace first = namespace) as Hfirst by by inversion Hsame.
    assert (no_space namespace) as Hns.
    { rewrite <- Hfirst. by inversion Hplain. }
    rewrite duplicate_message_kind by done. simpl. intros [= <-]. simpl.
    split; [done|]. intros _. rewrite Hfirst. split; [done|].
    split; [simpl in *; lia|done].
  - rewrite spread_message_kind. intros [= <-]. simpl. split; [|done]. intros _.
    split; [done|]. split; [by apply not_duplicated_NoDup|].
    unfold spread_over_namespaces, namespaces_of in Hspread.
    assert (remove_dups (rel_Namespace <$> dr_FoundReleases d)
              ⊆+ rel_Namespace <$> dr_FoundReleases d) as Hle.
    { apply NoDup_submseteq; [apply NoDup_remove_dups|].
      intros x. by rewrite elem_of_remove_dups. }
    apply submseteq_length in Hle. lia.
Qed.

(** X10. What the error of an ambiguous dependency lists: a
    [multiple_deployments] error lists the namespaces of the releases of
    its result, one per release, at least two and all different; a
    [duplicate_in_namespace] error lists the names of the releases of its
    result, at least two, all in the namespace the error names.  Namespace
    names are taken to hold no space. *)
Theorem ambiguity_error_details orders config t :
  plain_namespaces world →
  reaches_resolution world config t →
  ∃ report t',
    Check world orders config t = (Some (report, None), t') ∧
    Forall2 (λ d e,
      (ve_Type e = ErrorTypeMultipleDeployments →
         ed_FoundNamespaces (ve_Details e) = rel_Namespace <$> dr_FoundReleases d ∧
         NoDup (ed_FoundNamespaces (ve_Details e)) ∧
         2 ≤ length (ed_FoundNamespaces (ve_Details e))) ∧
      (ve_Type e = ErrorTypeDuplicateInNamespace →
         ed_FoundReleases (ve_Details e) = rel_Name <$> dr_FoundReleases d ∧
         2 ≤ length (dr_FoundReleases d) ∧
         Forall (λ release, rel_Namespace release = ed_Namespace (ve_Details e))
                (dr_FoundReleases d)))
      (failures (Dependencies report)) (Errors report).
Proof.
  intros Hplain (Hpath & [deps Hparse] & [namespaces Hns]).
  destruct (Check_run world orders config t)
    as [(msg & Hpath' & _)|[(err & e & _ & Hparse' & _)|
        [(deps' & msg & _ & _ & Hns' & _)|
         (deps' & namespaces' & report & errors & _ & Hparse' & _ & Hcheck & HD & Herrs
            & HE & _)]]]; [congruence..|].
  exists report. eexists. split; [done|]. rewrite HD, HE.
  pose proof (resolve_each_found world orders (Dependencies_of deps')
                (NamespacePattern config) 0 (t ++ [ListNamespaces])) as Hfound.
  assert (Forall (λ d, (dr_Status d = StatusMultipleFound → ambiguity d) ∧
                       Forall (λ release, no_space (rel_Namespace release))
                              (dr_FoundReleases d))
            (failures (resolve_each world orders 0 (Dependencies_of deps')
                         (NamespacePattern config) (t ++ [ListNamespaces])).1)) as Hf.
  { apply Forall_forall. intros d [_ Hd]%list_elem_of_filter.
    rewrite Forall_forall in Hfound. destruct (Hfound d Hd). auto. }
  clear - Herrs Hf. induction Herrs as [|d e ds es Hde _ IH]; [constructor|].
  apply Forall_cons in Hf as [[Hamb Hpl] Hf]. constructor; [|auto].
  by eapply ambiguity_details.
Qed.

(** *** Failures are written into the report *)

Lemma Forall2_and_r {A B} (P : A → B → Prop) (Q : B → Prop) l k :
  Forall2 P l k → Forall Q k → Forall2 (λ x y, P x y ∧ Q y) l k.
Proof.
  induction 1 as [|x y l k HP _ IH]; [constructor|].
  intros [HQ Hk]%Forall_cons. constructor; [done|by apply IH].
Qed.

Lemma checkSingleDependency_failures orders dep namespacePattern t :
  let lookup := (FindReleasesByChartName world (dep_Name dep) namespacePattern t).1 in
  let d := (checkSingleDependency world orders dep namespacePattern t).1 in
  (∀ e, lookup = failed e →
        dr_Status d = StatusError ∧ dr_FoundReleases d = [] ∧
        dr_Error d = "failed to find releases: " +:+ e) ∧
  (∀ release e,
     lookup = ok [release] →
     isVersionCompatible (chart_Version (rel_Chart release)) (dep_Version dep)
       = failed e →
     dr_Status d = StatusError ∧ dr_FoundReleases d = [release] ∧
     dr_Error d = "version compatibility check failed: " +:+ e).
Proof.
  intros lookup d.
  destruct (checkSingleDependency_outcome orders dep namespacePattern t)
    as [(e & Hlookup & Hd)|[(Hlookup & Hd)|
        [(releases & found & message & Hlookup & Hlen & Hd & _)|
         (release & Hlookup & Hd)]]]; fold lookup in Hlookup; fold d in Hd.
  - split.
    + intros e' He'. rewrite Hlookup in He'. injection He' as <-. by rewrite Hd.
    + intros release e' He'. congruence.
  - split; [congruence|]. intros release e' He'. congruence.
  - split; [congruence|]. intros release e' He'.
    rewrite Hlookup in He'. injection He' as ->. simpl in Hlen. lia.
  - split; [congruence|]. intros release' e' He' Hcompatible.
    rewrite Hlookup in He'. injection He' as <-.
    rewrite Hcompatible in Hd. by rewrite Hd.
Qed.

(** C10. [Check] returns its report with a nil error on every input, and
    never panics; each failure is written into the report.  A check that
    does not get as far as resolving dependencies (invalid chart path,
    declaration that does not parse or validate, namespaces that cannot be
    enumerated) reports failure with a single error and no result.  A check
    that does holds one result for each declared dependency, in order: the
    result that [checkSingleDependency] returns for it, which has one of the
    five outcomes, and is [Error] with the failure's message when the
    lookup of the releases fails or the version of the single release found
    cannot be compared; a result that is not [Satisfied] makes the report
    fail and adds the error built from it, under the dependency's name. *)
Theorem Check_returns_nil_error orders config t :
  ∃ report t',
    Check world orders config t = (Some (report, None), t') ∧
    (¬ reaches_resolution world config t →
       Success report = false ∧ Dependencies report = [] ∧
       ∃ e, Errors report = [e]) ∧
    (reaches_resolution world config t →
       ∃ deps,
         ParseDependencies world (ChartPath config) = ok deps ∧
         Forall2 (λ dep d,
           (∃ o t1,
              let lookup :=
                (FindReleasesByChartName world (dep_Name dep)
                   (NamespacePattern config) t1).1 in
              d = (checkSingleDependency world o dep (NamespacePattern config) t1).1 ∧
              (∀ e, lookup = failed e →
                    dr_Status d = StatusError ∧ dr_FoundReleases d = [] ∧
                    dr_Error d = "failed to find releases: " +:+ e) ∧
              (∀ release e,
                 lookup = ok [release] →
                 isVersionCompatible (chart_Version (rel_Chart release))
                   (dep_Version dep) = failed e →
                 dr_Status d = StatusError ∧ dr_FoundReleases d = [release] ∧
                 dr_Error d = "version compatibility check failed: " +:+ e)) ∧
           dr_Name d = dep_Name dep ∧
           dr_Status d ∈ outcomes ∧
           (dr_Status d ≠ StatusSatisfied →
              Success report = false ∧
              ∃ e, e ∈ Errors report ∧
                   createValidationError d (NamespacePattern config) = Some e ∧
                   ve_Chart e = dr_Name d))
           (Dependencies_of deps) (Dependencies report)) ∧
    Forall (λ d, dr_Status d ≠ StatusSatisfied →
                 Success report = false ∧
                 ∃ e, e ∈ Errors report ∧ ve_Chart e = dr_Name d)
           (Dependencies report).
Proof.
  destruct (Check_run world orders config t)
    as [(msg & Hpath & ->)|[(err & e & Hpath & Hparse & He & ->)|
        [(deps & msg & Hpath & Hparse & Hns & ->)|
         (deps & namespaces & report & errors & Hpath & Hparse & Hns & -> & HD & Herrs
            & HE & HS & HSu & HM)]]];
    eexists _, _; (split; [done|]).
  - split; [intros _; simpl; eauto|]. split; [|by constructor].
    intros (Hp & _). congruence.
  - split; [intros _; simpl; eauto|]. split; [|by constructor].
    intros (_ & [deps Hd] & _). congruence.
  - split; [intros _; simpl; eauto|]. split; [|by constructor].
    intros (_ & _ & [ns Hn]). congruence.
  - assert (Forall (λ d, dr_Status d ≠ StatusSatisfied →
                         Success report = false ∧
                         ∃ e, e ∈ Errors report ∧
                              createValidationError d (NamespacePattern config) = Some e ∧
                              ve_Chart e = dr_Name d)
                   (Dependencies report)) as Hwritten.
    { rewrite HD, HSu, HE. apply Forall_forall. intros d Hd Hsat. split.
      - apply not_true_is_false. intros Htrue.
        apply success_foldl in Htrue as [_ Hall];
          [|apply resolved_statuses, resolve_each_resolved].
        apply Forall_fmap in Hall. by eapply Forall_forall in Hall.
      - assert (d ∈ failures (resolve_each world orders 0 (Dependencies_of deps)
                                (NamespacePattern config) (t ++ [ListNamespaces])).1)
          as Hf by (by apply list_elem_of_filter).
        apply list_elem_of_lookup in Hf as [i Hi].
        destruct (Forall2_lookup_l _ _ _ _ _ Herrs Hi) as (e & He & Hcreate).
        exists e. split; [by eapply list_elem_of_lookup_2|]. split; [done|].
        by eapply createValidationError_chart. }
    split; [intros []; unfold reaches_resolution; eauto 6|]. split.
    + intros _. exists deps. split; [done|].
      pose proof (resolve_each_Forall2
        (λ dep d, ∃ o t1,
           d = (checkSingleDependency world o dep (NamespacePattern config) t1).1)
        orders (Dependencies_of deps) (NamespacePattern config)
        (λ o dep t1, ex_intro _ o (ex_intro _ t1 eq_refl))
        0 (t ++ [ListNamespaces])) as Hall.
      rewrite <- HD in Hall.
      eapply Forall2_impl; [exact (Forall2_and_r _ _ _ _ Hall Hwritten)|].
      intros dep d [(o & t1 & ->) Hd]. simpl in Hd.
      pose proof (checkSingleDependency_failures o dep (NamespacePattern config) t1)
        as [Hlookup Hcompare].
      split; [exists o, t1; cbn zeta; split; [done|by split]|].
      split; [apply checkSingleDependency_names|].
      split; [apply checkSingleDependency_resolved|done].
    + eapply Forall_impl; [exact Hwritten|]. intros d Hd Hsat. simpl in Hd.
      destruct (Hd Hsat) as (Hfalse & e & He & _ & Hchart). eauto.
Qed.

(** *** What is asked of the cluster *)

Lemma GetReleases_in_steady namespaces : ∀ allReleases t,
  steady_releases world →
  (GetReleases_in world namespaces allReleases t).1 =
  allReleases ++ concat (deployed_in world <$> namespaces).
Proof.
  induction namespaces as [|namespace rest IH]; intros allReleases t Hsteady.
  { simpl. by rewrite app_nil_r. }
  rewrite GetReleases_in_cons, getReleasesInNamespace_unfold. cbn [fst snd].
  rewrite fmap_cons, concat_cons. unfold deployed_in at 1. unfold deployed_at.
  rewrite (Hsteady [] t namespace).
  destruct (helm_List_Run world t namespace) as [msg|msg|releases]; rewrite IH by done;
    by rewrite ?app_nil_l, ?app_assoc.
Qed.

Lemma GetReleases_unfold namespacePattern t :
  (GetReleases world namespacePattern t).1 =
  match (getMatchingNamespaces world namespacePattern t).1 with
  | failed e => failed ("failed to get matching namespaces: " +:+ e)
  | ok namespaces =>
    ok (GetReleases_in world namespaces [] (t ++ [ListNamespaces])).1
  end.
Proof.
  unfold GetReleases, mbind, M_bind. rewrite getMatchingNamespaces_unfold. cbn [fst].
  destruct (match kube_Namespaces_List world t with ok _ => _ | failed _ => _ end)
    as [namespaces|e]; [|done].
  by destruct (GetReleases_in world namespaces [] (t ++ [ListNamespaces])).
Qed.

Lemma GetReleases_in_at namespaces : ∀ allReleases t,
  (GetReleases_in world namespaces allReleases t).1 =
  allReleases ++
  concat (imap (λ i namespace,
                  deployed_at world (t ++ (ListReleases <$> take i namespaces)) namespace)
               namespaces).
Proof.
  induction namespaces as [|namespace rest IH]; intros allReleases t.
  { simpl. by rewrite app_nil_r. }
  rewrite GetReleases_in_cons, getReleasesInNamespace_unfold. cbn [fst snd].
  cbn [imap concat take fmap list_fmap]. rewrite app_nil_r. unfold deployed_at at 1.
  assert (imap (λ i ns,
                  deployed_at world
                    ((t ++ [ListReleases namespace]) ++ (ListReleases <$> take i rest)) ns)
               rest =
          imap ((λ i ns,
                   deployed_at world
                     (t ++ (ListReleases <$> take i (namespace :: rest))) ns) ∘ S)
               rest) as Himap.
  { apply imap_ext. intros i ns _. simpl. by rewrite <- app_assoc. }
  destruct (helm_List_Run world t namespace) as [msg|msg|releases];
    rewrite IH, Himap; by rewrite ?app_nil_l, ?app_assoc.
Qed.

(** X11. [GetReleases] fails exactly when the namespaces cannot be
    selected.  Otherwise it returns the deployed releases of the selected
    namespaces, namespace after namespace, each as Helm lists them when its
    turn comes; a namespace that Helm fails to list adds nothing and raises
    no error.  On a cluster whose Helm answers do not change meanwhile,
    these are the deployed releases of the selected namespaces. *)
Theorem GetReleases_skips_failed_namespaces namespacePattern t :
  match (getMatchingNamespaces world namespacePattern t).1 with
  | failed e =>
    (GetReleases world namespacePattern t).1 =
      failed ("failed to get matching namespaces: " +:+ e)
  | ok namespaces =>
    (GetReleases world namespacePattern t).1 =
      ok (concat
            (imap (λ i namespace,
                     deployed_at world
                       ((t ++ [ListNamespaces]) ++ (ListReleases <$> take i namespaces))
                       namespace)
                  namespaces)) ∧
    (steady_releases world →
     (GetReleases world namespacePattern t).1 =
       ok (concat (deployed_in world <$> namespaces)))
  end.
Proof.
  rewrite GetReleases_unfold.
  destruct (getMatchingNamespaces world namespacePattern t).1 as [namespaces|e];
    [|done].
  split.
  - by rewrite GetReleases_in_at.
  - intros Hsteady. by rewrite GetReleases_in_steady.
Qed.

Lemma GetReleases_in_unlistable namespaces : ∀ allReleases t,
  (∀ t' namespace releases,
     namespace ∈ namespaces → helm_List_Run world t' namespace ≠ Listed releases) →
  (GetReleases_in world namespaces allReleases t).1 = allReleases.
Proof.
  induction namespaces as [|namespace rest IH]; intros allReleases t Hfail; [done|].
  rewrite GetReleases_in_cons, getReleasesInNamespace_unfold. cbn [fst snd].
  destruct (helm_List_Run world t namespace) as [msg|msg|releases] eqn:Hrun.
  - apply IH. intros t' ns rels Hns. apply Hfail. by right.
  - apply IH. intros t' ns rels Hns. apply Hfail. by right.
  - destruct (Hfail t namespace releases); [left|done].
Qed.

(** X12. When Helm fails to list every selected namespace, the lookup of a
    dependency still succeeds, with no release: the dependency is reported
    [NotFound], not [Error]. *)
Theorem unlistable_namespaces_give_NotFound orders dep namespacePattern t namespaces :
  (getMatchingNamespaces world namespacePattern t).1 = ok namespaces →
  (∀ t' namespace releases,
     namespace ∈ namespaces → helm_List_Run world t' namespace ≠ Listed releases) →
  (GetReleases world namespacePattern t).1 = ok [] ∧
  dr_Status (checkSingleDependency world orders dep namespacePattern t).1
    = StatusNotFound ∧
  createValidationError (checkSingleDependency world orders dep namespacePattern t).1
    namespacePattern =
  Some (NewValidationError ErrorTypeDependencyNotFound (dep_Name dep)
          "No releases found matching the dependency requirements"
          {| ed_RequiredVersion := dep_Version dep; ed_FoundVersion := "";
             ed_Namespace := ""; ed_Release := ""; ed_SearchPattern := namespacePattern;
             ed_FoundNamespaces := []; ed_FoundReleases := []; ed_File := "";
             ed_Line := 0 |}).
Proof.
  intros Hns Hfail.
  assert ((GetReleases world namespacePattern t).1 = ok []) as Hget.
  { rewrite GetReleases_unfold, Hns. by rewrite GetReleases_in_unlistable. }
  split; [done|].
  rewrite checkSingleDependency_unfold. cbn zeta. cbn [fst].
  unfold FindReleasesByChartName, mbind, M_bind.
  destruct (GetReleases world namespacePattern t) as [r t1]. simpl in Hget. subst r.
  by split.
Qed.

Lemma selected_in_scope namespacePattern t namespaces :
  (getMatchingNamespaces world namespacePattern t).1 = ok namespaces →
  Forall (in_scope namespacePattern) namespaces.
Proof.
  rewrite getMatchingNamespaces_unfold. cbn [fst].
  destruct (kube_Namespaces_List world t) as [items|e]; [|done].
  case_bool_decide as Hpattern.
  - intros [= <-]. apply Forall_forall. intros ns Hin.
    apply list_elem_of_In, filter_In in Hin as [_ Hin]. split; [|done].
    intros _. by apply negb_true_iff in Hin.
  - destruct (regexp_Compile namespacePattern) as [regex|e] eqn:Hre; [|done].
    intros [= <-]. apply Forall_forall. intros ns Hin.
    apply list_elem_of_In, filter_In in Hin as [_ Hin]. split; [done|].
    intros _ re Hre'. rewrite Hre in Hre'. by injection Hre' as <-.
Qed.

Lemma resolve_each_scope orders deps namespacePattern : ∀ i t,
  ∃ new,
    (resolve_each world orders i deps namespacePattern t).2 = t ++ new ∧
    Forall (λ ev, ∀ namespace, ev = ListReleases namespace →
                  in_scope namespacePattern namespace) new.
Proof.
  induction deps as [|dep rest IH]; intros i t.
  { exists []. split; [by rewrite app_nil_r|constructor]. }
  rewrite resolve_each_cons. cbn zeta. cbn [fst snd].
  rewrite checkSingleDependency_trace.
  pose proof (selected_in_scope namespacePattern t) as Hscope.
  destruct (getMatchingNamespaces world namespacePattern t).1 as [namespaces|e].
  - destruct (IH (S i) (t ++ ListNamespaces :: (ListReleases <$> namespaces)))
      as (new & -> & Hnew).
    exists ((ListNamespaces :: (ListReleases <$> namespaces)) ++ new).
    split; [by rewrite <- app_assoc|]. apply Forall_app. split; [|done].
    constructor; [done|]. apply Forall_fmap. specialize (Hscope _ eq_refl).
    eapply Forall_impl; [exact Hscope|]. by intros ns Hns ns' [= <-].
  - destruct (IH (S i) (t ++ [ListNamespaces])) as (new & -> & Hnew).
    exists ([ListNamespaces] ++ new). split; [by rewrite <- app_assoc|].
    apply Forall_app. split; [|done]. by constructor.
Qed.

(** X13. [Check] asks Helm for releases only in namespaces that the
    namespace filter selects: with the empty pattern never in a system
    namespace, with a pattern only in namespaces whose name the compiled
    pattern matches. *)
Theorem helm_queries_stay_in_scope orders config t :
  ∃ report t' new,
    Check world orders config t = (Some (report, None), t') ∧
    t' = t ++ new ∧
    Forall (λ ev, ∀ namespace, ev = ListReleases namespace →
                  in_scope (NamespacePattern config) namespace) new.
Proof.
  destruct (Check_run world orders config t)
    as [(msg & Hpath & ->)|[(err & e & Hpath & Hparse & He & ->)|
        [(deps & msg & Hpath & Hparse & Hns & ->)|
         (deps & namespaces & report & errors & Hpath & Hparse & Hns & -> & _)]]].
  - eexists _, _, []. split; [done|]. split; [by rewrite app_nil_r|constructor].
  - eexists _, _, []. split; [done|]. split; [by rewrite app_nil_r|constructor].
  - eexists _, _, [ListNamespaces]. split; [done|]. split; [done|]. by constructor.
  - destruct (resolve_each_scope orders (Dependencies_of deps) (NamespacePattern config)
                0 (t ++ [ListNamespaces])) as (new & -> & Hnew).
    eexists _, _, ([ListNamespaces] ++ new). split; [done|].
    split; [by rewrite <- app_assoc|]. apply Forall_app. split; [by constructor|done].
Qed.

(** *** The configuration *)

Lemma ValidateConfig_pattern config :
  ValidateConfig config = None →
  ChartPath config ≠ "" ∧
  (NamespacePattern config ≠ "" →
   ∃ re, regexp_Compile (NamespacePattern config) = ok re) ∧
  OutputFormat config ∈ [OutputFormatText; OutputFormatJSON; OutputFormatYAML; ""].
Proof.
  unfold ValidateConfig, validateNamespacePattern.
  case_bool_decide as Hpath; [done|].
  destruct (decide (NamespacePattern config = "")) as [Hp|Hp].
  - rewrite bool_decide_eq_false_2 by (by intros H).
    destruct (_ || _) eqn:Hformat; [|done]. intros _. split; [done|]. split; [done|].
    rewrite !orb_true_iff, !bool_decide_eq_true in Hformat.
    rewrite !elem_of_cons. tauto.
  - rewrite bool_decide_eq_true_2 by done.
    destruct (regexp_Compile (NamespacePattern config)) as [re|e]; [|done].
    destruct (_ || _) eqn:Hformat; [|done]. intros _. split; [done|].
    split; [by exists re|].
    rewrite !orb_true_iff, !bool_decide_eq_true in Hformat.
    rewrite !elem_of_cons. tauto.
Qed.

Lemma accepted_pattern_selects config t :
  ValidateConfig config = None →
  (∀ t', ∃ items, kube_Namespaces_List world t' = ok items) →
  ∃ namespaces,
    (getMatchingNamespaces world (NamespacePattern config) t).1 = ok namespaces.
Proof.
  intros (_ & Hpattern & _)%ValidateConfig_pattern Hlist.
  rewrite getMatchingNamespaces_unfold. cbn [fst].
  destruct (Hlist t) as [items ->].
  destruct (decide (NamespacePattern config = "")) as [Hp|Hp].
  - rewrite bool_decide_eq_true_2 by done. eauto.
  - rewrite bool_decide_eq_false_2 by done. destruct (Hpattern Hp) as [re ->]. eauto.
Qed.

Lemma failure_status d namespacePattern e :
  resolved d → dr_Status d ≠ StatusSatisfied →
  createValidationError d namespacePattern = Some e →
  ve_Type e = ErrorTypeHelmClientError →
  dr_Status d = StatusError ∧ ve_Chart e = dr_Name d ∧ ve_Message e = dr_Error d.
Proof.
  intros (Hstatus & _) Hfailed. unfold createValidationError.
  case_bool_decide as Hnf; [by intros [= <-]|].
  case_bool_decide as Hvm.
  { destruct (dr_FoundReleases d !! 0); [|done]. by intros [= <-]. }
  case_bool_decide as Hmf.
  { destruct (strings_Contains _ _); [by intros [= <-]|].
    destruct (dr_FoundReleases d !! 0); [|done]. by intros [= <-]. }
  intros [= <-] _. split; [|done].
  unfold outcomes in Hstatus. rewrite !elem_of_cons in Hstatus.
  destruct Hstatus as [?|[?|[?|[?|[?|Hnone]]]]]; try done.
  by apply elem_of_nil in Hnone.
Qed.

(** X14. A configuration that [ValidateConfig] accepts cannot make the
    check fail on the namespace filter.  On a cluster that lists its
    namespaces, the filter of every lookup succeeds; in the report, an
    [Error] outcome then holds the one release whose version could not be
    compared, and a [HelmClientError] belongs to a dependency with that
    outcome. *)
Theorem accepted_config_lookups_succeed orders config t :
  ValidateConfig config = None →
  (∀ t', ∃ items, kube_Namespaces_List world t' = ok items) →
  (∀ t', ∃ namespaces,
     (getMatchingNamespaces world (NamespacePattern config) t').1 = ok namespaces) ∧
  ∃ report t',
    Check world orders config t = (Some (report, None), t') ∧
    Forall (λ d,
      dr_Status d = StatusError →
      ∃ release,
        dr_FoundReleases d = [release] ∧
        ∃ e, isVersionCompatible (chart_Version (rel_Chart release))
               (dr_RequiredVersion d) = failed e ∧
             dr_Error d = "version compatibility check failed: " +:+ e)
      (Dependencies report) ∧
    Forall (λ e,
      ve_Type e = ErrorTypeHelmClientError →
      ∃ d, d ∈ Dependencies report ∧ dr_Status d = StatusError ∧
           ve_Chart e = dr_Name d ∧ ve_Message e = dr_Error d)
      (Errors report).
Proof.
  intros Hconfig Hlist.
  assert (∀ t', ∃ namespaces,
    (getMatchingNamespaces world (NamespacePattern config) t').1 = ok namespaces)
    as Hselect by (intros t'; by apply accepted_pattern_selects).
  split; [done|].
  destruct (Check_run world orders config t)
    as [(msg & Hpath & ->)|[(err & e & Hpath & Hparse & He & ->)|
        [(deps & msg & Hpath & Hparse & Hns & ->)|
         (deps & namespaces & report & errors & Hpath & Hparse & Hns & -> & HD & Herrs
            & HE & _)]]].
  - eexists _, _. split; [done|]. split; [constructor|]. simpl.
    constructor; [done|constructor].
  - eexists _, _. split; [done|]. split; [constructor|]. simpl.
    constructor; [|constructor].
    pose proof (ParseDependencies_cases (ChartPath config)) as Hresult.
    rewrite Hparse in Hresult. destruct Hresult as (e' & -> & [Ht|Ht] & _);
      subst; simpl; by rewrite Ht.
  - destruct (Hselect t) as [namespaces Hok].
    unfold getMatchedNamespaces, GetMatchingNamespaces in Hns. congruence.
  - eexists _, _. split; [done|]. rewrite HD, HE. split.
    + apply resolve_each_Forall. intros o dep t1 Herror.
      destruct (checkSingleDependency_outcome o dep (NamespacePattern config) t1)
        as [(e & Hlookup & _)|[(_ & Hd)|[(releases & found & message & _ & _ & Hd & _)|
            (release & _ & Hd)]]].
      * apply FindReleasesByChartName_failed in Hlookup as (e' & Hfail & _).
        destruct (Hselect t1) as [nss Hok]. congruence.
      * by rewrite Hd in Herror.
      * by rewrite Hd in Herror.
      * exists release. rewrite Hd in *.
        destruct (isVersionCompatible _ _) as [[]|e] eqn:Hcompatible; try done.
        split; [done|]. exists e. simpl. by rewrite Hcompatible.
    + apply Forall_forall. intros e He Htype.
      apply list_elem_of_lookup in He as [k He].
      destruct (Forall2_lookup_r _ _ _ _ _ Herrs He) as (d & Hd & Hcreate).
      apply list_elem_of_lookup_2, list_elem_of_filter in Hd as [Hfailed Hd].
      exists d. split; [done|].
      eapply failure_status; [|done|done|done].
      pose proof (resolve_each_resolved world orders (Dependencies_of deps)
                    (NamespacePattern config) 0 (t ++ [ListNamespaces])) as Hres.
      rewrite Forall_forall in Hres. by apply Hres.
Qed.

(** *** Charts on disk *)

Lemma findChartsForPattern_spec pattern :
  match findChartsForPattern disk pattern with
  | ok paths =>
    ¬ bad_pattern disk pattern ∧
    ∀ path, path ∈ paths ↔
            candidate disk pattern path ∧ isValidChartDirectory disk path = true
  | failed e => bad_pattern disk pattern
  end.
Proof.
  unfold findChartsForPattern, bad_pattern, candidate, has_wildcard.
  destruct (strings_Contains pattern "*" || strings_Contains pattern "?"
            || strings_Contains pattern "[").
  - destruct (filepath_Glob disk pattern) as [matches|e]; [|by exists e].
    split; [by intros [e He]|]. intros path.
    rewrite list_elem_of_In, filter_In, <- list_elem_of_In. split.
    + intros [Hin Hvalid]. split; [by exists matches|done].
    + intros [(matches' & [= <-] & Hin) Hvalid]. done.
  - destruct (isValidChartDirectory disk pattern) eqn:Hvalid; [|done].
    split; [done|]. intros path. rewrite list_elem_of_singleton. split.
    + by intros ->.
    + by intros [-> _].
Qed.

Lemma add_unique_spec paths : ∀ chartPaths seenPaths,
  seen_paths seenPaths chartPaths → NoDup chartPaths →
  seen_paths (add_unique disk paths chartPaths seenPaths).2
             (add_unique disk paths chartPaths seenPaths).1 ∧
  NoDup (add_unique disk paths chartPaths seenPaths).1 ∧
  chartPaths `prefix_of` (add_unique disk paths chartPaths seenPaths).1 ∧
  ∀ absPath, absPath ∈ (add_unique disk paths chartPaths seenPaths).1 ↔
             absPath ∈ chartPaths ∨
             ∃ path, path ∈ paths ∧ filepath_Abs disk path = ok absPath.
Proof.
  induction paths as [|path rest IH]; intros chartPaths seenPaths Hseen Hnodup.
  { simpl. split; [done|]. split; [done|]. split; [done|]. intros absPath.
    split; [by left|]. intros [Hin|(path & Hin & _)]; [done|].
    by apply elem_of_nil in Hin. }
  cbn [add_unique]. destruct (filepath_Abs disk path) as [absPath|e] eqn:Habs.
  2: { destruct (IH chartPaths seenPaths Hseen Hnodup) as (Hs & Hn & Hp & Hm).
       split; [done|]. split; [done|]. split; [done|]. intros abs. rewrite Hm.
       split; (intros [Hin|(path' & Hin & Habs')]; [by left|right]).
       - exists path'. split; [by right|done].
       - apply elem_of_cons in Hin as [-> | Hin]; [congruence|by exists path']. }
  destruct (default false (seenPaths !! absPath)) eqn:Hlookup.
  { destruct (IH chartPaths seenPaths Hseen Hnodup) as (Hs & Hn & Hp & Hm).
    split; [done|]. split; [done|]. split; [done|]. intros abs. rewrite Hm.
    split; (intros [Hin|(path' & Hin & Habs')]; [by left|]).
    - right. exists path'. split; [by right|done].
    - apply elem_of_cons in Hin as [-> | Hin]; [|right; by exists path'].
      left. rewrite Habs in Habs'. injection Habs' as <-. by apply Hseen. }
  assert (absPath ∉ chartPaths) as Hfresh.
  { intros Hin. apply Hseen in Hin. congruence. }
  destruct (IH (chartPaths ++ [absPath]) (<[absPath := true]> seenPaths))
    as (Hs & Hn & Hp & Hm).
  { intros p. rewrite elem_of_app, list_elem_of_singleton.
    destruct (decide (p = absPath)) as [-> | Hne].
    - rewrite lookup_insert_eq. simpl. split; [by right|done].
    - rewrite lookup_insert_ne by done. rewrite (Hseen p). split; [by left|].
      by intros [Hin|Heq]. }
  { apply NoDup_app. split; [done|]. split; [|apply NoDup_singleton].
    intros p Hin ->%list_elem_of_singleton. done. }
  split; [done|]. split; [done|].
  split; [by eapply prefix_app_l|]. intros abs. rewrite Hm, elem_of_app,
    list_elem_of_singleton. split.
  - intros [[Hin| ->]|(path' & Hin & Habs')].
    + by left.
    + right. exists path. split; [by left|done].
    + right. exists path'. split; [by right|done].
  - intros [Hin|(path' & Hin & Habs')]; [by left; left|].
    apply elem_of_cons in Hin as [-> | Hin]; [|right; by exists path'].
    left. right. congruence.
Qed.

Lemma FindCharts_from_spec patterns : ∀ chartPaths seenPaths,
  seen_paths seenPaths chartPaths → NoDup chartPaths →
  match FindCharts_from disk patterns chartPaths seenPaths with
  | ok result =>
    Forall (λ pattern, ¬ bad_pattern disk pattern) patterns ∧
    NoDup result ∧
    chartPaths `prefix_of` result ∧
    ∀ absPath, absPath ∈ result ↔
      absPath ∈ chartPaths ∨
      ∃ pattern path,
        pattern ∈ patterns ∧ candidate disk pattern path ∧
        isValidChartDirectory disk path = true ∧
        filepath_Abs disk path = ok absPath
  | failed e =>
    ∃ before pattern after cause,
      patterns = before ++ pattern :: after ∧
      Forall (λ pattern, ¬ bad_pattern disk pattern) before ∧
      bad_pattern disk pattern ∧
      findChartsForPattern disk pattern = failed cause ∧
      e = "failed to process pattern '" +:+ pattern +:+ "': " +:+ cause
  end.
Proof.
  induction patterns as [|pattern rest IH]; intros chartPaths seenPaths Hseen Hnodup.
  { simpl. split; [constructor|]. split; [done|]. split; [done|]. intros absPath.
    split; [by left|]. intros [Hin|(pattern & path & Hin & _)]; [done|].
    by apply elem_of_nil in Hin. }
  cbn [FindCharts_from]. pose proof (findChartsForPattern_spec pattern) as Hpattern.
  destruct (findChartsForPattern disk pattern) as [paths|cause] eqn:Hfind.
  2: { exists [], pattern, rest, cause. by repeat split. }
  destruct Hpattern as [Hgood Hpaths].
  destruct (add_unique_spec paths chartPaths seenPaths Hseen Hnodup)
    as (Hs & Hn & Hp & Hm).
  destruct (add_unique disk paths chartPaths seenPaths) as [chartPaths' seenPaths'].
  cbn [fst snd] in *. specialize (IH chartPaths' seenPaths' Hs Hn).
  destruct (FindCharts_from disk rest chartPaths' seenPaths') as [result|e].
  - destruct IH as (Hrest & Hnr & Hpr & Hmr).
    split; [by constructor|]. split; [done|].
    split; [by etrans|]. intros absPath. rewrite Hmr, Hm. split.
    + intros [[Hin|(path & Hin & Habs)]|(pattern' & path & Hin & Hrestin)].
      * by left.
      * right. exists pattern, path. apply Hpaths in Hin as [Hc Hv].
        split; [by left|done].
      * right. exists pattern', path. split; [by right|done].
    + intros [Hin|(pattern' & path & Hin & Hc & Hv & Habs)]; [by left; left|].
      apply elem_of_cons in Hin as [-> | Hin].
      * left. right. exists path. split; [|done]. by apply Hpaths.
      * right. by exists pattern', path.
  - destruct IH as (before & pattern' & after & cause & -> & Hbefore & Hbad & Hc & ->).
    exists (pattern :: before), pattern', after, cause. split; [done|].
    split; [by constructor|done].
Qed.

(** X15. What [FindCharts] returns.  It fails at the first pattern that is
    a glob pattern [filepath.Glob] rejects or a plain path that is no chart
    directory, and names that pattern; a glob pattern that matches no chart
    is no failure.  Otherwise it returns, without repetition, exactly the
    absolute paths of the chart directories that the patterns stand for;
    a path that cannot be made absolute is left out. *)
Theorem FindCharts_result patterns :
  match FindCharts disk patterns with
  | ok chartPaths =>
    Forall (λ pattern, ¬ bad_pattern disk pattern) patterns ∧
    NoDup chartPaths ∧
    ∀ absPath, absPath ∈ chartPaths ↔
      ∃ pattern path,
        pattern ∈ patterns ∧ candidate disk pattern path ∧
        isValidChartDirectory disk path = true ∧
        filepath_Abs disk path = ok absPath
  | failed e =>
    ∃ before pattern after cause,
      patterns = before ++ pattern :: after ∧
      Forall (λ pattern, ¬ bad_pattern disk pattern) before ∧
      bad_pattern disk pattern ∧
      findChartsForPattern disk pattern = failed cause ∧
      e = "failed to process pattern '" +:+ pattern +:+ "': " +:+ cause
  end.
Proof.
  unfold FindCharts.
  pose proof (FindCharts_from_spec patterns [] ∅) as Hspec.
  destruct (FindCharts_from disk patterns [] ∅) as [chartPaths|e].
  - destruct Hspec as (Hgood & Hnodup & _ & Hmem).
    + intros path. rewrite lookup_empty. simpl. split; [done|].
      intros Hin. by apply elem_of_nil in Hin.
    + constructor.
    + split; [done|]. split; [done|]. intros absPath. rewrite Hmem.
      split; [|by right]. intros [Hin|Hex]; [|done]. by apply elem_of_nil in Hin.
  - apply Hspec; [|constructor].
    intros path. rewrite lookup_empty. simpl. split; [done|].
    intros Hin. by apply elem_of_nil in Hin.
Qed.

Lemma FindCharts_from_prefix patterns : ∀ more chartPaths seenPaths result,
  seen_paths seenPaths chartPaths → NoDup chartPaths →
  FindCharts_from disk (patterns ++ more) chartPaths seenPaths = ok result →
  ∃ first,
    FindCharts_from disk patterns chartPaths seenPaths = ok first ∧
    first `prefix_of` result.
Proof.
  induction patterns as [|pattern rest IH];
    intros more chartPaths seenPaths result Hseen Hnodup Hresult.
  { exists chartPaths. split; [done|].
    pose proof (FindCharts_from_spec more chartPaths seenPaths Hseen Hnodup) as Hspec.
    simpl in Hresult. rewrite Hresult in Hspec. by destruct Hspec as (_ & _ & Hp & _). }
  cbn [app FindCharts_from] in *.
  destruct (findChartsForPattern disk pattern) as [paths|e]; [|done].
  destruct (add_unique_spec paths chartPaths seenPaths Hseen Hnodup)
    as (Hs & Hn & _).
  destruct (add_unique disk paths chartPaths seenPaths) as [chartPaths' seenPaths'].
  by eapply IH.
Qed.

(** X16. [FindCharts] is stable under further patterns: when it succeeds
    on a list of patterns, it succeeds on every initial part of the list,
    and the charts of the initial part open the result, in the same
    order. *)
Theorem FindCharts_extends patterns more chartPaths :
  FindCharts disk (patterns ++ more) = ok chartPaths →
  ∃ first,
    FindCharts disk patterns = ok first ∧ first `prefix_of` chartPaths.
Proof.
  unfold FindCharts. apply FindCharts_from_prefix; [|constructor].
  intros path. rewrite lookup_empty. simpl. split; [done|].
  intros Hin. by apply elem_of_nil in Hin.
Qed.

(** X17. [GetChartInfo] and [ValidateChartPath] agree on the chart path:
    [GetChartInfo] returns a chart only where [ValidateChartPath] accepts
    the path, and then with a name and a version that are not empty, as
    decoded from [Chart.yaml]; where [ValidateChartPath] rejects the path,
    [GetChartInfo] fails on reading the file. *)
Theorem GetChartInfo_result chartPath :
  match GetChartInfo world chartPath with
  | ok info =>
    ValidateChartPath world chartPath = None ∧
    chart_Name info ≠ "" ∧ chart_Version info ≠ "" ∧
    ∃ data,
      os_ReadFile world (filepath_Join chartPath "Chart.yaml") = ok data ∧
      yaml_Unmarshal_chart data = ok (chart_Name info, chart_Version info)
  | failed e =>
    (∃ cause,
       os_ReadFile world (filepath_Join chartPath "Chart.yaml") = failed cause ∧
       e = "failed to read Chart.yaml: " +:+ cause ∧
       ValidateChartPath world chartPath =
         Some ("invalid chart path '" +:+ chartPath +:+
               "': Chart.yaml not found or not readable")) ∨
    (ValidateChartPath world chartPath = None ∧
     ∃ data,
       os_ReadFile world (filepath_Join chartPath "Chart.yaml") = ok data ∧
       match yaml_Unmarshal_chart data with
       | failed cause => e = "failed to parse Chart.yaml: " +:+ cause
       | ok (name, version) =>
         (name = "" ∧ e = "chart name is required in Chart.yaml") ∨
         (name ≠ "" ∧ version = "" ∧ e = "chart version is required in Chart.yaml")
       end)
  end.
Proof.
  unfold GetChartInfo, ValidateChartPath. cbn zeta.
  destruct (os_ReadFile world (filepath_Join chartPath "Chart.yaml")) as [data|cause].
  2: { left. by exists cause. }
  destruct (yaml_Unmarshal_chart data) as [[name version]|cause] eqn:Hdecode.
  2: { right. split; [done|]. exists data. by rewrite Hdecode. }
  case_bool_decide as Hname.
  { right. split; [done|]. exists data. rewrite Hdecode. split; [done|]. by left. }
  case_bool_decide as Hversion.
  { right. split; [done|]. exists data. rewrite Hdecode. split; [done|]. by right. }
  split; [done|]. split; [done|]. split; [done|]. by exists data.
Qed.

(** *** Lookups on a steady cluster *)

Lemma FindReleasesByChartName_unfold chartName namespacePattern t :
  (FindReleasesByChartName world chartName namespacePattern t).1 =
  match (GetReleases world namespacePattern t).1 with
  | failed e => failed e
  | ok allReleases =>
    ok (List.filter (λ release, bool_decide (chart_Name (rel_Chart release) = chartName))
          allReleases)
  end.
Proof.
  unfold FindReleasesByChartName, mbind, M_bind.
  by destruct (GetReleases world namespacePattern t) as [[]].
Qed.

Lemma checkSingleDependency_steady orders dep namespacePattern t t' :
  steady_namespaces world → steady_releases world →
  (checkSingleDependency world orders dep namespacePattern t).1 =
  (checkSingleDependency world orders dep namespacePattern t').1.
Proof.
  intros Hnamespaces Hreleases. rewrite !checkSingleDependency_unfold.
  cbn zeta. cbn [fst]. rewrite !FindReleasesByChartName_unfold, !GetReleases_unfold.
  rewrite !getMatchingNamespaces_unfold. cbn [fst].
  rewrite (Hnamespaces t t').
  destruct (match kube_Namespaces_List world t' with ok _ => _ | failed _ => _ end)
    as [namespaces|e]; [|done].
  by rewrite !GetReleases_in_steady.
Qed.

Lemma resolve_each_steady orders deps namespacePattern :
  steady_namespaces world → steady_releases world →
  ∀ i t,
    (resolve_each world orders i deps namespacePattern t).1 =
    imap (λ j dep,
            (checkSingleDependency world (orders (i + j)) dep namespacePattern []).1)
         deps.
Proof.
  intros Hnamespaces Hreleases.
  induction deps as [|dep rest IH]; intros i t; [done|].
  rewrite resolve_each_cons. cbn zeta. cbn [fst snd imap]. f_equal.
  - rewrite Nat.add_0_r. by apply checkSingleDependency_steady.
  - rewrite IH. apply imap_ext. intros j dep' _. simpl.
    by rewrite Nat.add_succ_r.
Qed.

(** X18. On a cluster that does not change during the check, the
    dependencies are checked independently: the result of each declared
    dependency is the one that [checkSingleDependency] gives for it alone,
    whatever else is declared before or after it. *)
Theorem steady_results_are_independent orders config t :
  steady_namespaces world → steady_releases world →
  reaches_resolution world config t →
  ∃ report t' deps,
    Check world orders config t = (Some (report, None), t') ∧
    ParseDependencies world (ChartPath config) = ok deps ∧
    Dependencies report =
      imap (λ i dep,
              (checkSingleDependency world (orders i) dep (NamespacePattern config) []).1)
           (Dependencies_of deps).
Proof.
  intros Hnamespaces Hreleases (Hpath & [deps Hparse] & [namespaces Hns]).
  destruct (Check_run world orders config t)
    as [(msg & Hpath' & _)|[(err & e & _ & Hparse' & _)|
        [(deps' & msg & _ & _ & Hns' & _)|
         (deps' & namespaces' & report & errors & _ & Hparse' & _ & Hcheck & HD & _)]]];
    [congruence..|].
  assert (deps' = deps) as -> by congruence.
  exists report. eexists. exists deps. split; [done|]. split; [done|].
  rewrite HD. by rewrite resolve_each_steady.
Qed.

End MoreFacts.

(** ** Runs on the small cluster *)

Section Runs.
Import Demo.

(** C1 fails as stated: on scenario E the check is aborted by validation,
    so no [DependencyResult] in the report is anything but [Satisfied]
    (there is none), and yet [Success] is false. *)
Lemma aborted_check_has_no_unsatisfied_result :
  ∃ report,
    (Check declared_twice (visiting "prod") (config "") []).1 = Some (report, None) ∧
    ¬ (Success report = true ↔
       Forall (λ d, dr_Status d = StatusSatisfied) (Dependencies report)).
Proof.
  eexists. split; [by vm_compute|]. simpl. intros [_ Hsuccess].
  by specialize (Hsuccess (Forall_nil_2 _)).
Qed.


(** C4 fails as stated: with no declaration at all the namespaces of the
    cluster are still enumerated, and when that fails the report is a
    failure. *)
Lemma empty_declaration_queries_namespaces :
  ParseDependencies nothing_declared "chart" = ok {| Dependencies_of := [] |} ∧
  (Check nothing_declared (visiting "prod") (config "") []).2 = [ListNamespaces] ∧
  (Check nothing_declared (visiting "prod") (config "") []).2 ≠ [] ∧
  ∃ report,
    (Check nothing_declared_unreachable (visiting "prod") (config "") []).1 =
      Some (report, None) ∧
    Success report = false.
Proof.
  split; [by vm_compute|]. split; [by vm_compute|]. split; [by vm_compute|].
  eexists. split; by vm_compute.
Qed.



(** Scenario F. *)
Lemma empty_declaration_report_witness :
  ValidateChartPath nothing_declared "chart" = None ∧
  ParseDependencies nothing_declared "chart" = ok {| Dependencies_of := [] |} ∧
  ∃ report,
    Check nothing_declared (visiting "prod") (config "") [] =
      (Some (report, None), [] ++ [ListNamespaces]) ∧
    Dependencies report = [] ∧
    Summary report = no_summary ∧
    Success report = true ∧ Errors report = [] ∧ MatchedNamespaces report = ["prod"].
Proof.
  split; [by vm_compute|]. split; [by vm_compute|].
  apply (empty_declaration_report nothing_declared (visiting "prod") (config "") []
           {| Dependencies_of := [] |}); by vm_compute.
Defined.

(** The pattern [kube] selects [kube-system]: a match inside the name is
    enough, and a system namespace is not left out. *)
Lemma namespace_filter_selection_witness :
  kube_Namespaces_List two_namespaces [] = ok ["prod"; "staging"; "kube-system"] ∧
  (getMatchingNamespaces two_namespaces "kube" []).1 = ok ["kube-system"] ∧
  (getMatchingNamespaces two_namespaces "" []).1 = ok ["prod"; "staging"].
Proof.
  split; [done|].
  pose proof (namespace_filter_selection two_namespaces "kube" []
                ["prod"; "staging"; "kube-system"] eq_refl) as (_ & Hkube & _).
  pose proof (namespace_filter_selection two_namespaces "" []
                ["prod"; "staging"; "kube-system"] eq_refl) as (Hempty & _).
  split.
  - destruct (Hkube ltac:(done) "kube" eq_refl) as [-> _]. by vm_compute.
  - destruct (Hempty eq_refl) as [-> _]. by vm_compute.
Defined.

Lemma two_namespaces_plain : plain_namespaces two_namespaces.
Proof.
  intros t namespace releases [= <-].
  repeat case_bool_decide; repeat constructor; by vm_compute.
Defined.

(** Scenario D: one [multiple_deployments] error for [redis]. *)
Lemma errors_follow_taxonomy_witness :
  plain_namespaces two_namespaces ∧
  ∃ report t',
    Check two_namespaces (visiting "prod") (config "") [] = (Some (report, None), t') ∧
    Forall (λ d,
      length (filter (λ e, ve_Chart e = dr_Name d) (Errors report)) =
        (if decide (dr_Status d ≠ StatusSatisfied) then 1 else 0) ∧
      ∀ e, e ∈ Errors report → ve_Chart e = dr_Name d → follows_taxonomy d e)
    (Dependencies report).
Proof.
  split; [exact two_namespaces_plain|].
  exact (errors_follow_taxonomy two_namespaces (visiting "prod") (config "") []
           two_namespaces_plain).
Defined.

(** Scenario E: the second [redis] entry is rejected and the check
    aborts. *)
Lemma validation_failure_aborts_witness :
  ValidateChartPath declared_twice "chart" = None ∧
  os_ReadFile declared_twice (filepath_Join "chart" "dependencies.yaml")
    = ok doc_redis_twice ∧
  yaml_Unmarshal doc_redis_twice = ok {| Dependencies_of := [redis; redis] |} ∧
  [redis; redis] !! 1 = Some redis ∧
  invalid_entry (take 1 [redis; redis]) redis ∧
  ∃ e k0 dep0,
    Check declared_twice (visiting "prod") (config "") [] = (Some (aborted e, None), []) ∧
    first_invalid [redis; redis] k0 dep0 ∧
    ve_Type e =
      (if decide (structural_problem (take k0 [redis; redis]) dep0)
       then ErrorTypeInvalidDependencyFile else ErrorTypeInvalidVersionConstraint) ∧
    ed_Line (ve_Details e) = wrap64 (Z.of_nat k0 + 2).
Proof.
  assert (invalid_entry (take 1 [redis; redis]) redis) as Hinvalid.
  { left. right. right. simpl. left. }
  split; [by vm_compute|]. split; [by vm_compute|]. split; [by vm_compute|].
  split; [done|]. split; [done|].
  apply (validation_failure_aborts declared_twice (visiting "prod") (config "") []
           doc_redis_twice {| Dependencies_of := [redis; redis] |} 1 redis);
    try done; by vm_compute.
Defined.

End Runs.

Section MoreRuns.
Import Demo MoreDemo.

Lemma two_dependencies_resolves :
  reaches_resolution two_dependencies (config "") [].
Proof.
  split; [by vm_compute|]. split; eexists; vm_compute; reflexivity.
Defined.

Lemma two_namespaces_resolves :
  reaches_resolution two_namespaces (config "") [].
Proof.
  split; [by vm_compute|]. split; eexists; vm_compute; reflexivity.
Defined.

Lemma two_dependencies_steady_releases : steady_releases two_dependencies.
Proof. intros t t' namespace. reflexivity. Defined.

Lemma two_dependencies_steady_namespaces : steady_namespaces two_dependencies.
Proof. intros t t'. reflexivity. Defined.

Lemma two_dependencies_listed t :
  ∃ items, kube_Namespaces_List two_dependencies t = ok items.
Proof. by exists ["prod"; "staging"]. Defined.

Lemma helm_down_unlistable t namespace releases :
  namespace ∈ ["prod"; "staging"] →
  helm_List_Run helm_down t namespace ≠ Listed releases.
Proof. intros _. discriminate. Defined.

(** Two dependencies, each deployed once: two results, in declaration
    order. *)
Lemma results_follow_declaration_witness :
  reaches_resolution two_dependencies (config "") [] ∧
  ∃ report t' deps,
    Check two_dependencies (visiting "prod") (config "") [] = (Some (report, None), t') ∧
    ParseDependencies two_dependencies (ChartPath (config "")) = ok deps ∧
    Forall2 (λ dep d, dr_Name d = dep_Name dep ∧ dr_RequiredVersion d = dep_Version dep)
            (Dependencies_of deps) (Dependencies report) ∧
    s_Total (Summary report) = wrap64 (Z.of_nat (length (Dependencies_of deps))).
Proof.
  split; [exact two_dependencies_resolves|].
  exact (results_follow_declaration two_dependencies (visiting "prod") (config "") []
           two_dependencies_resolves).
Defined.

(** Scenario D: the one error is that of [redis]. *)
Lemma errors_follow_results_witness :
  reaches_resolution two_namespaces (config "") [] ∧
  ∃ report t',
    Check two_namespaces (visiting "prod") (config "") [] = (Some (report, None), t') ∧
    Forall2 (λ d e, ve_Chart e = dr_Name d ∧
                    ed_RequiredVersion (ve_Details e) = dr_RequiredVersion d)
            (failures (Dependencies report)) (Errors report).
Proof.
  split; [exact two_namespaces_resolves|].
  exact (errors_follow_results two_namespaces (visiting "prod") (config "") []
           two_namespaces_resolves).
Defined.

(** Scenario D: the error lists [prod] and [staging]. *)
Lemma ambiguity_error_details_witness :
  plain_namespaces two_namespaces ∧
  reaches_resolution two_namespaces (config "") [] ∧
  ∃ report t',
    Check two_namespaces (visiting "prod") (config "") [] = (Some (report, None), t') ∧
    Forall2 (λ d e,
      (ve_Type e = ErrorTypeMultipleDeployments →
         ed_FoundNamespaces (ve_Details e) = rel_Namespace <$> dr_FoundReleases d ∧
         NoDup (ed_FoundNamespaces (ve_Details e)) ∧
         2 ≤ length (ed_FoundNamespaces (ve_Details e))) ∧
      (ve_Type e = ErrorTypeDuplicateInNamespace →
         ed_FoundReleases (ve_Details e) = rel_Name <$> dr_FoundReleases d ∧
         2 ≤ length (dr_FoundReleases d) ∧
         Forall (λ release, rel_Namespace release = ed_Namespace (ve_Details e))
                (dr_FoundReleases d)))
      (failures (Dependencies report)) (Errors report).
Proof.
  split; [exact two_namespaces_plain|]. split; [exact two_namespaces_resolves|].
  exact (ambiguity_error_details two_namespaces (visiting "prod") (config "") []
           two_namespaces_plain two_namespaces_resolves).
Defined.

(** Two namespaces selected, one release in each. *)
Lemma GetReleases_skips_failed_namespaces_witness :
  steady_releases two_dependencies ∧
  (GetReleases two_dependencies "" []).1 =
    ok (concat (deployed_in two_dependencies <$> ["prod"; "staging"])).
Proof.
  split; [exact two_dependencies_steady_releases|].
  exact (proj2 (GetReleases_skips_failed_namespaces two_dependencies "" [])
           two_dependencies_steady_releases).
Defined.

(** Helm down in [prod] and [staging]: [redis] is reported [NotFound]. *)
Lemma unlistable_namespaces_give_NotFound_witness :
  (getMatchingNamespaces helm_down "" []).1 = ok ["prod"; "staging"] ∧
  (∀ t' namespace releases,
     namespace ∈ ["prod"; "staging"] →
     helm_List_Run helm_down t' namespace ≠ Listed releases) ∧
  (GetReleases helm_down "" []).1 = ok [] ∧
  dr_Status (checkSingleDependency helm_down (visiting "prod" 0) redis "" []).1
    = StatusNotFound ∧
  createValidationError (checkSingleDependency helm_down (visiting "prod" 0) redis "" []).1
    "" =
  Some (NewValidationError ErrorTypeDependencyNotFound (dep_Name redis)
          "No releases found matching the dependency requirements"
          {| ed_RequiredVersion := dep_Version redis; ed_FoundVersion := "";
             ed_Namespace := ""; ed_Release := ""; ed_SearchPattern := "";
             ed_FoundNamespaces := []; ed_FoundReleases := []; ed_File := "";
             ed_Line := 0 |}).
Proof.
  split; [by vm_compute|]. split; [exact helm_down_unlistable|].
  exact (unlistable_namespaces_give_NotFound helm_down (visiting "prod" 0) redis "" []
           ["prod"; "staging"] eq_refl helm_down_unlistable).
Defined.

(** The sample configuration is accepted and the cluster lists its
    namespaces. *)
Lemma accepted_config_lookups_succeed_witness :
  ValidateConfig (config "") = None ∧
  (∀ t', ∃ items, kube_Namespaces_List two_dependencies t' = ok items) ∧
  (∀ t', ∃ namespaces,
     (getMatchingNamespaces two_dependencies (NamespacePattern (config "")) t').1
       = ok namespaces) ∧
  ∃ report t',
    Check two_dependencies (visiting "prod") (config "") [] = (Some (report, None), t') ∧
    Forall (λ d,
      dr_Status d = StatusError →
      ∃ release,
        dr_FoundReleases d = [release] ∧
        ∃ e, isVersionCompatible (chart_Version (rel_Chart release))
               (dr_RequiredVersion d) = failed e ∧
             dr_Error d = "version compatibility check failed: " +:+ e)
      (Dependencies report) ∧
    Forall (λ e,
      ve_Type e = ErrorTypeHelmClientError →
      ∃ d, d ∈ Dependencies report ∧ dr_Status d = StatusError ∧
           ve_Chart e = dr_Name d ∧ ve_Message e = dr_Error d)
      (Errors report).
Proof.
  split; [by vm_compute|]. split; [exact two_dependencies_listed|].
  exact (accepted_config_lookups_succeed two_dependencies (visiting "prod") (config "") []
           eq_refl two_dependencies_listed).
Defined.

(** The charts under [charts/], then [charts/app] again. *)
Lemma FindCharts_extends_witness :
  FindCharts disk (["charts/*"] ++ ["charts/app"])
    = ok ["/work/charts/app"; "/work/charts/db"] ∧
  ∃ first,
    FindCharts disk ["charts/*"] = ok first ∧
    first `prefix_of` ["/work/charts/app"; "/work/charts/db"].
Proof.
  split; [by vm_compute|].
  exact (FindCharts_extends disk ["charts/*"] ["charts/app"]
           ["/work/charts/app"; "/work/charts/db"] eq_refl).
Defined.

(** Two dependencies on a steady cluster. *)
Lemma steady_results_are_independent_witness :
  steady_namespaces two_dependencies ∧
  steady_releases two_dependencies ∧
  reaches_resolution two_dependencies (config "") [] ∧
  ∃ report t' deps,
    Check two_dependencies (visiting "prod") (config "") [] = (Some (report, None), t') ∧
    ParseDependencies two_dependencies (ChartPath (config "")) = ok deps ∧
    Dependencies report =
      imap (λ i dep,
              (checkSingleDependency two_dependencies (visiting "prod" i) dep
                 (NamespacePattern (config "")) []).1)
           (Dependencies_of deps).
Proof.
  split; [exact two_dependencies_steady_namespaces|].
  split; [exact two_dependencies_steady_releases|].
  split; [exact two_dependencies_resolves|].
  exact (steady_results_are_independent two_dependencies (visiting "prod") (config "") []
           two_dependencies_steady_namespaces two_dependencies_steady_releases
           two_dependencies_resolves).
Defined.

End MoreRuns.
